(** * Cppuccino: the two example programs, embedded and verified

  [examples/const_vs_nonconst.cpp] times a const and a non-const member
  function that run the same accumulation loop;
  [examples/ownership_and_lifetime.cpp] traces the lifetime of a
  [Resource] held through [std::unique_ptr], [std::shared_ptr] and a raw
  observing pointer.

  The programs are embedded shallowly.  Pure code becomes Rocq functions,
  code that prints, allocates or reads the clock becomes a function in a
  state-and-failure monad over an explicit world.  [None] stands for
  "no defined behaviour" (a dereference of a pointer that holds no live
  object, or an answer no allocator or clock gives). *)

From Equations Require Import Equations.
From stdpp Require Import gmap strings list.
From Stdlib Require Import ZArith Lia String Ascii DecimalString.

Open Scope Z_scope.

(** ** The state-and-failure monad *)

Section Monad.
Variable W : Type.

Definition M (A : Type) : Type := W -> option (A * W).

Definition ret {A} (x : A) : M A := fun w => Some (x, w).

Definition bind {A B} (m : M A) (k : A -> M B) : M B :=
  fun w => match m w with
           | Some (x, w') => k x w'
           | None => None
           end.

Definition undefined {A} : M A := fun _ => None.

(** [for (int i = 0; i < n; ++i) body] for a literal bound [n] that the
    counter reaches without overflow; the body receives [i]. *)
Fixpoint for_from (i : Z) (n : nat) (body : Z -> M unit) : M unit :=
  match n with
  | O => ret tt
  | S n' => bind (body i) (fun _ => for_from (i + 1) n' body)
  end.
End Monad.

Arguments ret {W A} x.
Arguments bind {W A B} m k.
Arguments undefined {W A}.
Arguments for_from {W} i n body.

Declare Scope prog_scope.
Delimit Scope prog_scope with prog.
Notation "'let*' x := m 'in' k" := (bind m (fun x => k))
(at level 10, x name, m at level 100, k at level 200) : prog_scope.
Notation "m ;; k" := (bind m (fun _ => k))
(at level 100, k at level 200, right associativity, only parsing) : prog_scope.
Open Scope prog_scope.

(** ** Standard output

  What [std::cout] has received, character by character.  The text of a
  pointer and of a [double] is chosen by the implementation, so each is
  kept as one token that carries the value printed. *)

Module ostream.

Inductive ochar : Type :=
| Ch (c : ascii)
| Ptr (p : Z)
| Dbl (ticks : Z).

(** The right operand of one [operator<<]. *)
Inductive item : Type :=
| str (s : string)
| chr (c : ascii)
| ptr (p : Z)
| long (n : Z)
| dbl (ticks : Z).

Definition nl : ascii := "010"%char.
Definition endl : string := String nl EmptyString.

Definition text (s : string) : list ochar := map Ch (list_ascii_of_string s).

Definition insert (x : item) : list ochar :=
  match x with
  | str s => text s
  | chr c => [Ch c]
  | ptr p => [Ptr p]
  | long n => text (NilZero.string_of_int (Z.to_int n))
  | dbl t => [Dbl t]
  end.

(** [std::cout << x1 << x2 << ...] *)
Definition inserts (xs : list item) : list ochar := flat_map insert xs.

(** The lines of an output, without their newline characters. *)
Fixpoint lines_from (cur : list ochar) (s : list ochar) : list (list ochar) :=
  match s with
  | [] => match cur with [] => [] | _ => [rev cur] end
  | Ch c :: s' =>
      if Ascii.eqb c nl then rev cur :: lines_from [] s'
      else lines_from (Ch c :: cur) s'
  | x :: s' => lines_from (x :: cur) s'
  end.

Definition lines (s : list ochar) : list (list ochar) := lines_from [] s.

(** The output with the values of its pointers and durations blanked. *)
Definition blank (c : ochar) : ochar :=
  match c with
  | Ch c => Ch c
  | Ptr _ => Ptr 0
  | Dbl _ => Dbl 0
  end.

Definition skeleton (s : list ochar) : list ochar := map blank s.

(** The identity markers (pointer values) printed in a piece of output. *)
Fixpoint markers (s : list ochar) : list Z :=
  match s with
  | [] => []
  | Ptr p :: s' => p :: markers s'
  | _ :: s' => markers s'
  end.

Fixpoint strip_prefix (p : list ascii) (l : list ochar) : option (list ochar) :=
  match p, l with
  | [], _ => Some l
  | c :: p', Ch c' :: l' => if Ascii.eqb c c' then strip_prefix p' l' else None
  | _, _ => None
  end.

Definition starts_with (p : string) (l : list ochar) : bool :=
  match strip_prefix (list_ascii_of_string p) l with
  | Some _ => true
  | None => false
  end.

Fixpoint find_after (pat : list ascii) (l : list ochar) : option (list ochar) :=
  match strip_prefix pat l with
  | Some rest => Some rest
  | None => match l with
            | [] => None
            | _ :: l' => find_after pat l'
            end
  end.

Fixpoint until_ptr (l : list ochar) : option (list ascii * Z * list ochar) :=
  match l with
  | [] => None
  | Ptr p :: rest => Some ([], p, rest)
  | Ch c :: rest =>
      match until_ptr rest with
      | Some (cs, p, r) => Some (c :: cs, p, r)
      | None => None
      end
  | Dbl _ :: _ => None
  end.

Fixpoint chars (l : list ochar) : option (list ascii) :=
  match l with
  | [] => Some []
  | Ch c :: l' => match chars l' with
                  | Some cs => Some (c :: cs)
                  | None => None
                  end
  | _ :: _ => None
  end.

Definition number (l : list ochar) : option Z :=
  match chars l with
  | Some cs =>
      match NilZero.int_of_string (string_of_list_ascii cs) with
      | Some d => Some (Z.of_int d)
      | None => None
      end
  | None => None
  end.

End ostream.

Import ostream.

(** ** 32-bit [int]

  [int] is 32 bits wide on the targets the examples are built for.  ISO
  C++ leaves signed overflow undefined; the compilers of these targets
  produce the two's-complement wrap-around, and that is what the embedding
  gives signed arithmetic. *)

Definition INT_MIN : Z := - 2 ^ 31.
Definition INT_MAX : Z := 2 ^ 31 - 1.

Definition int_wrap (x : Z) : Z := (x + 2 ^ 31) mod 2 ^ 32 - 2 ^ 31.

Definition int_add (x y : Z) : Z := int_wrap (x + y).

(** ** 64-bit tick counts

  [std::chrono::high_resolution_clock] counts its ticks in a signed 64-bit
  integer, and the difference of two time points is computed in that
  type: it wraps around where the readings lie further apart than the
  type can tell. *)

Definition INT64_MIN : Z := - 2 ^ 63.
Definition INT64_MAX : Z := 2 ^ 63 - 1.

Definition int64_wrap (x : Z) : Z := (x + 2 ^ 63) mod 2 ^ 64 - 2 ^ 63.

Definition int64_sub (x y : Z) : Z := int64_wrap (x - y).

(** ** examples/const_vs_nonconst.cpp *)

Module const_vs_nonconst.

(** [class Data] has no data members. *)
Record Data : Type := mkData { }.

(** The loop of [Data::compute], from the state [(i, sum)]:
    [for (int i = 0; i < 1000000; ++i) { sum += i; }] *)
Equations? compute_loop (i sum : Z) : Z by wf (Z.to_nat (1000000 - i)) lt :=
  compute_loop i sum with Z_lt_dec i 1000000 := {
    | left _ => compute_loop (int_add i 1) (int_add sum i)
    | right _ => sum }.
Proof.
  unfold int_add, int_wrap. Z.div_mod_to_equations. lia.
Qed.

(** [int compute() const { int sum = 0; for (...) {...} return sum; }] *)
Definition compute (this : Data) : Z := compute_loop 0 0.

(** The loop of [Data::computeNonConst], from the state [(i, sum)]. *)
Equations? computeNonConst_loop (i sum : Z) : Z by wf (Z.to_nat (1000000 - i)) lt :=
  computeNonConst_loop i sum with Z_lt_dec i 1000000 := {
    | left _ => computeNonConst_loop (int_add i 1) (int_add sum i)
    | right _ => sum }.
Proof.
  unfold int_add, int_wrap. Z.div_mod_to_equations. lia.
Qed.

(** [int computeNonConst() { int sum = 0; for (...) {...} return sum; }] *)
Definition computeNonConst (this : Data) : Z := computeNonConst_loop 0 0.

(** The world of the benchmark: the readings the clock will give, in
    ticks, and standard output. *)
Record world : Type := mkWorld {
  clock : list Z;
  cout : list ochar }.

(** [std::chrono::high_resolution_clock::now()] *)
Definition now : M world Z :=
  fun w => match clock w with
           | t :: rest => Some (t, {| clock := rest; cout := cout w |})
           | [] => None
           end.

Definition cout_ins (xs : list item) : M world unit :=
  fun w => Some (tt, {| clock := clock w; cout := cout w ++ inserts xs |}).

(** A call whose result is discarded. *)
Definition discard (v : Z) : M world unit := ret tt.

(** [endConst - startConst] is a difference of tick counts; the
    [duration<double, std::milli>] made from it has that many ticks as its
    value, in another unit, and the token printed carries the ticks. *)
Definition main : M world Z :=
  let data := mkData in
  let* startConst := now in
  for_from 0 100 (fun _ => discard (compute data)) ;;
  let* endConst := now in
  let* startNonConst := now in
  for_from 0 100 (fun _ => discard (computeNonConst data)) ;;
  let* endNonConst := now in
  let constDuration := int64_sub endConst startConst in
  let nonConstDuration := int64_sub endNonConst startNonConst in
  cout_ins [str "Const method duration: "; dbl constDuration; str (" ms" ++ endl)] ;;
  cout_ins [str "Non-const method duration: "; dbl nonConstDuration; str (" ms" ++ endl)] ;;
  ret 0.

End const_vs_nonconst.

(** ** examples/ownership_and_lifetime.cpp *)

Module ownership_and_lifetime.

(** The null pointer; every other address is an integer different from it. *)
Definition nullptr : Z := 0.

(** [class Resource { std::string name_; }] *)
Record Resource : Type := mkResource { name_ : string }.

(** The world of the program: the live [Resource] objects by address, the
    control blocks of [std::shared_ptr] (the use count, kept under the
    address of the object they manage), standard output, and the addresses
    the allocator will hand out, in order.  The allocator stands for the
    placement of [Resource] objects only: storage a [std::string] may take
    for the characters of a long name is not part of the world, and no
    line of the output depends on it. *)
Record world : Type := mkWorld {
  objs : gmap Z Resource;
  ctrl : gmap Z nat;
  cout : list ochar;
  allocator : list Z }.

Definition init (alloc : list Z) : world :=
  {| objs := ∅; ctrl := ∅; cout := []; allocator := alloc |}.

Definition cout_ins (xs : list item) : M world unit :=
  fun w => Some (tt, {| objs := objs w; ctrl := ctrl w;
                        cout := cout w ++ inserts xs;
                        allocator := allocator w |}).

(** [operator new]: the next address of the allocator, which is not null
    and holds no live object. *)
Definition operator_new : M world Z :=
  fun w => match allocator w with
           | p :: rest =>
               if (p =? nullptr) || bool_decide (is_Some (objs w !! p)) then None
               else Some (p, {| objs := objs w; ctrl := ctrl w;
                                cout := cout w; allocator := rest |})
           | [] => None
           end.

(** The object a pointer refers to; there is none behind null, a pointer
    never returned by [operator new], or a destroyed object. *)
Definition deref (p : Z) : M world Resource :=
  fun w => match objs w !! p with
           | Some r => Some (r, w)
           | None => None
           end.

(** Start of the lifetime of the object at [this]. *)
Definition begin_lifetime (this : Z) (r : Resource) : M world unit :=
  fun w => Some (tt, {| objs := <[this := r]> (objs w); ctrl := ctrl w;
                        cout := cout w; allocator := allocator w |}).

(** End of the lifetime of the object at [this]; its storage is free again. *)
Definition end_lifetime (this : Z) : M world unit :=
  fun w => Some (tt, {| objs := delete this (objs w); ctrl := ctrl w;
                        cout := cout w; allocator := allocator w |}).

(** [explicit Resource(std::string name) : name_(std::move(name)) {...}] *)
Definition Resource_ctor (this : Z) (name : string) : M world unit :=
  begin_lifetime this {| name_ := name |} ;;
  let* self := deref this in
  cout_ins [str "[Acquire] Resource: "; str (name_ self); str " @ "; ptr this; chr nl].

(** [~Resource() {...}] *)
Definition Resource_dtor (this : Z) : M world unit :=
  let* self := deref this in
  cout_ins [str "[Release] Resource: "; str (name_ self); str " @ "; ptr this; chr nl] ;;
  end_lifetime this.

(** [void use() const {...}] *)
Definition Resource_use (this : Z) : M world unit :=
  let* self := deref this in
  cout_ins [str "[Use] Resource: "; str (name_ self); str " @ "; ptr this; chr nl].

(** [new Resource(name)] and [delete p]. *)
Definition new_Resource (name : string) : M world Z :=
  let* p := operator_new in
  Resource_ctor p name ;;
  ret p.

Definition delete_Resource (p : Z) : M world unit := Resource_dtor p.

(** *** [std::unique_ptr<Resource>]: the pointer it owns, or null. *)

Definition make_unique (name : string) : M world Z := new_Resource name.

Definition unique_get (u : Z) : Z := u.

(** [explicit operator bool] *)
Definition unique_bool (u : Z) : bool := negb (u =? nullptr).

(** Move construction from [std::move(src)]: the new owner, and what is
    left in [src]. *)
Definition unique_move (src : Z) : Z * Z := (src, nullptr).

(** [~unique_ptr()] *)
Definition unique_dtor (u : Z) : M world unit :=
  if u =? nullptr then ret tt else delete_Resource u.

(** *** [std::shared_ptr<Resource>]: the pointer it shares, or null. *)

Definition use_count_of (p : Z) : M world nat :=
  fun w => match ctrl w !! p with
           | Some n => Some (n, w)
           | None => None
           end.

Definition set_use_count (p : Z) (n : nat) : M world unit :=
  fun w => Some (tt, {| objs := objs w; ctrl := <[p := n]> (ctrl w);
                        cout := cout w; allocator := allocator w |}).

Definition drop_control_block (p : Z) : M world unit :=
  fun w => Some (tt, {| objs := objs w; ctrl := delete p (ctrl w);
                        cout := cout w; allocator := allocator w |}).

Definition make_shared (name : string) : M world Z :=
  let* p := new_Resource name in
  set_use_count p 1 ;;
  ret p.

(** Copy construction: one more owner. *)
Definition shared_copy (s : Z) : M world Z :=
  if s =? nullptr then ret s
  else let* n := use_count_of s in
       set_use_count s (S n) ;;
       ret s.

Definition shared_get (s : Z) : Z := s.

(** [long use_count() const] *)
Definition shared_use_count (s : Z) : M world Z :=
  if s =? nullptr then ret 0
  else let* n := use_count_of s in ret (Z.of_nat n).

(** [~shared_ptr()]: one owner fewer; the last one deletes the object. *)
Definition shared_dtor (s : Z) : M world unit :=
  if s =? nullptr then ret tt
  else let* n := use_count_of s in
       match n with
       | O => undefined
       | S O => drop_control_block s ;; delete_Resource s
       | S n' => set_use_count s n'
       end.

(** *** The program *)

Definition createUniqueResource : M world Z :=
  make_unique "unique_resource".

(** The statements of [consumeUnique], without the end of its parameter. *)
Definition consumeUnique_body (res : Z) : M world unit :=
  cout_ins [str "[consumeUnique] owns resource @ "; ptr (unique_get res); chr nl] ;;
  Resource_use res.

(** A call of [consumeUnique], complete.  The parameter [res] is destroyed
    when the call is over: by the callee on return, or by the caller at
    the end of the full expression of the call, as the ABI has it (g++
    leaves it to the caller).  Nothing happens between the two, so the
    embedding of the call ends with it. *)
Definition consumeUnique (res : Z) : M world unit :=
  cout_ins [str "[consumeUnique] owns resource @ "; ptr (unique_get res); chr nl] ;;
  Resource_use res ;;
  unique_dtor res.

Definition uniqueOwnershipScenario : M world unit :=
  let* res := createUniqueResource in
  cout_ins [str "[Caller] owns resource @ "; ptr (unique_get res); chr nl] ;;
  let moved := unique_move res in
  let res := snd moved in
  consumeUnique (fst moved) ;;
  (if negb (unique_bool res)
   then cout_ins [str ("[Caller] unique_ptr is now empty" ++ endl)]
   else ret tt) ;;
  (* [res] goes out of scope *)
  unique_dtor res.

Definition sharedOwnershipScenario : M world unit :=
  let* res := make_shared "shared_resource" in
  let* n := shared_use_count res in
  cout_ins [str "[Owner A] resource @ "; ptr (shared_get res);
            str ", use_count = "; long n; chr nl] ;;
  (let* another := shared_copy res in
   let* n := shared_use_count another in
   cout_ins [str "[Owner B] resource @ "; ptr (shared_get another);
             str ", use_count = "; long n; chr nl] ;;
   Resource_use another ;;
   (* [another] goes out of scope *)
   shared_dtor another) ;;
  let* n := shared_use_count res in
  cout_ins [str "[Owner A] after inner scope, use_count = "; long n; chr nl] ;;
  Resource_use res ;;
  (* [res] goes out of scope *)
  shared_dtor res.

Definition observeResource (res : Z) : M world unit :=
  cout_ins [str "[Observer] sees resource @ "; ptr res; chr nl] ;;
  if negb (res =? nullptr) then Resource_use res else ret tt.

Definition observerScenario : M world unit :=
  let* owner := make_unique "observer_resource" in
  cout_ins [str "[Owner] resource @ "; ptr (unique_get owner); chr nl] ;;
  observeResource (unique_get owner) ;;
  (* [owner] goes out of scope *)
  unique_dtor owner.

Definition main : M world Z :=
  cout_ins [str (endl ++ "=== Unique Ownership ===" ++ endl)] ;;
  uniqueOwnershipScenario ;;
  cout_ins [str (endl ++ "=== Shared Ownership ===" ++ endl)] ;;
  sharedOwnershipScenario ;;
  cout_ins [str (endl ++ "=== Observer Ownership ===" ++ endl)] ;;
  observerScenario ;;
  cout_ins [str (endl ++ "=== End of Program ===" ++ endl)] ;;
  ret 0.

(** *** Reading the trace back from standard output *)

Inductive event : Type :=
| Acquire (name : string) (id : Z)
| Use (name : string) (id : Z)
| Release (name : string) (id : Z)
| OwnerCount (n : Z)
| Other (line : list ochar).

(** A line [<tag> Resource: <name> @ <pointer>]. *)
Definition resource_line (tag : string) (l : list ochar) : option (string * Z) :=
  match strip_prefix (list_ascii_of_string (tag ++ " Resource: ")) l with
  | Some rest =>
      match until_ptr rest with
      | Some (cs, p, []) =>
          match rev cs with
          | " "%char :: "@"%char :: " "%char :: eman =>
              Some (string_of_list_ascii (rev eman), p)
          | _ => None
          end
      | _ => None
      end
  | None => None
  end.

(** A line of an owner that ends in [use_count = <number>]. *)
Definition owner_count_line (l : list ochar) : option Z :=
  if starts_with "[Owner " l then
    match find_after (list_ascii_of_string "use_count = ") l with
    | Some rest => number rest
    | None => None
    end
  else None.

Definition classify (l : list ochar) : event :=
  match resource_line "[Acquire]" l with
  | Some (n, p) => Acquire n p
  | None =>
  match resource_line "[Use]" l with
  | Some (n, p) => Use n p
  | None =>
  match resource_line "[Release]" l with
  | Some (n, p) => Release n p
  | None =>
  match owner_count_line l with
  | Some n => OwnerCount n
  | None => Other l
  end end end end.

Definition events (out : list ochar) : list event := map classify (lines out).

Definition is_trace (e : event) : bool :=
  match e with
  | Other _ => false
  | _ => true
  end.

(** The lifecycle, use and owner-count traces, without the other lines. *)
Definition trace (out : list ochar) : list event :=
  List.filter is_trace (events out).

Definition is_acquire (e : event) : bool :=
  match e with Acquire _ _ => true | _ => false end.
Definition is_use (e : event) : bool :=
  match e with Use _ _ => true | _ => false end.
Definition is_release (e : event) : bool :=
  match e with Release _ _ => true | _ => false end.

Definition count (p : event -> bool) (es : list event) : nat :=
  List.length (List.filter p es).

(** The event with its identity marker left out. *)
Inductive kind : Type :=
| KAcquire (name : string)
| KUse (name : string)
| KRelease (name : string)
| KOwnerCount (n : Z)
| KOther (line : list ochar).

Definition kind_of (e : event) : kind :=
  match e with
  | Acquire n _ => KAcquire n
  | Use n _ => KUse n
  | Release n _ => KRelease n
  | OwnerCount n => KOwnerCount n
  | Other l => KOther (skeleton l)
  end.

(** *** The state machine of a resource instance

    [Uninitialized -> Alive -> Released], followed along a trace for all
    instances at once: the monitor keeps the instances that are [Alive],
    by identity marker, with the name they were acquired under.  It
    rejects an acquisition at a marker that is alive, and a use or a
    release of an instance that is not alive under that name. *)
Fixpoint monitor (es : list event) (alive : gmap Z string) : option (gmap Z string) :=
  match es with
  | [] => Some alive
  | Acquire n p :: es' =>
      match alive !! p with
      | None => monitor es' (<[p := n]> alive)
      | Some _ => None
      end
  | Use n p :: es' =>
      match alive !! p with
      | Some n' => if String.eqb n n' then monitor es' alive else None
      | None => None
      end
  | Release n p :: es' =>
      match alive !! p with
      | Some n' => if String.eqb n n' then monitor es' (delete p alive) else None
      | None => None
      end
  | _ :: es' => monitor es' alive
  end.

End ownership_and_lifetime.

(** * The vocabulary of the properties

    What the programs are observed through: the text of each line they
    write, the output of each scenario and of a whole run, the readings of
    the trace, and the wording of the specification where a property
    needs it. *)

Section vocabulary.
Import ownership_and_lifetime.

(** [0 + 1 + ... + (n - 1)], over the integers. *)
Fixpoint sum_below (n : nat) : Z :=
  match n with
  | O => 0
  | S n' => sum_below n' + Z.of_nat n'
  end.

(** The closed form of that sum. *)
Definition gauss (n : Z) : Z := n * (n - 1) / 2.

(** One pass of either loop: the exit test against 1000000, the increment
    of [i] and the addition into [sum]. *)
Definition loop_pass (loop : Z -> Z -> Z) (i sum : Z) : Z :=
  if i <? 1000000 then loop (int_add i 1) (int_add sum i) else sum.

(** The world after [s] has been written to standard output. *)
Definition emit (s : list ochar) (w : world) : world :=
  {| objs := objs w; ctrl := ctrl w; cout := cout w ++ s; allocator := allocator w |}.

Definition acquire_line (name : string) (p : Z) : list ochar :=
  inserts [str "[Acquire] Resource: "; str name; str " @ "; ptr p; chr nl].
Definition use_line (name : string) (p : Z) : list ochar :=
  inserts [str "[Use] Resource: "; str name; str " @ "; ptr p; chr nl].
Definition release_line (name : string) (p : Z) : list ochar :=
  inserts [str "[Release] Resource: "; str name; str " @ "; ptr p; chr nl].

Definition consume_line (p : Z) : list ochar :=
  inserts [str "[consumeUnique] owns resource @ "; ptr p; chr nl].

Definition caller_line (p : Z) : list ochar :=
  inserts [str "[Caller] owns resource @ "; ptr p; chr nl].
Definition empty_line : list ochar :=
  inserts [str ("[Caller] unique_ptr is now empty" ++ endl)].

(** All that [uniqueOwnershipScenario] writes, for the address [p] of its
    resource. *)
Definition unique_output (p : Z) : list ochar :=
  acquire_line "unique_resource" p ++ caller_line p ++ consume_line p
  ++ use_line "unique_resource" p ++ release_line "unique_resource" p
  ++ empty_line.

Definition owner_a_line (p n : Z) : list ochar :=
  inserts [str "[Owner A] resource @ "; ptr p; str ", use_count = "; long n; chr nl].
Definition owner_b_line (p n : Z) : list ochar :=
  inserts [str "[Owner B] resource @ "; ptr p; str ", use_count = "; long n; chr nl].
Definition owner_a_after_line (n : Z) : list ochar :=
  inserts [str "[Owner A] after inner scope, use_count = "; long n; chr nl].

(** All that [sharedOwnershipScenario] writes, for the address [p] of its
    resource. *)
Definition shared_output (p : Z) : list ochar :=
  acquire_line "shared_resource" p ++ owner_a_line p 1 ++ owner_b_line p 2
  ++ use_line "shared_resource" p ++ owner_a_after_line 1
  ++ use_line "shared_resource" p ++ release_line "shared_resource" p.

Definition observer_line (p : Z) : list ochar :=
  inserts [str "[Observer] sees resource @ "; ptr p; chr nl].

Definition owner_line (p : Z) : list ochar :=
  inserts [str "[Owner] resource @ "; ptr p; chr nl].

(** All that [observerScenario] writes, for the address [p] of its
    resource. *)
Definition observer_output (p : Z) : list ochar :=
  acquire_line "observer_resource" p ++ owner_line p ++ observer_line p
  ++ use_line "observer_resource" p ++ release_line "observer_resource" p.

Definition header (title : string) : list ochar :=
  inserts [str (endl ++ title ++ endl)].

(** All that [main] writes, for the addresses of its three resources. *)
Definition main_output (a1 a2 a3 : Z) : list ochar :=
  header "=== Unique Ownership ===" ++ unique_output a1
  ++ header "=== Shared Ownership ===" ++ shared_output a2
  ++ header "=== Observer Ownership ===" ++ observer_output a3
  ++ header "=== End of Program ===".

(** Every control block counts at least one owner and manages a live
    object: a resource is not released while it has an owner. *)
Definition owners_have_object (w : world) : Prop :=
  forall p n, ctrl w !! p = Some n -> (0 < n)%nat /\ is_Some (objs w !! p).

(** The traces of a whole run, in the order the specification gives. *)
Definition claimed_trace (a1 a2 a3 : Z) : list event :=
  [ Acquire "unique_resource" a1; Use "unique_resource" a1;
    Release "unique_resource" a1;
    Acquire "shared_resource" a2; OwnerCount 1; OwnerCount 2;
    Use "shared_resource" a2; OwnerCount 1; Use "shared_resource" a2;
    Release "shared_resource" a2;
    Acquire "observer_resource" a3; Use "observer_resource" a3;
    Release "observer_resource" a3 ].

(** Every line of a whole run. *)
Definition main_events (a1 a2 a3 : Z) : list event :=
  [ Other []; Other (text "=== Unique Ownership ===");
    Acquire "unique_resource" a1;
    Other (text "[Caller] owns resource @ " ++ [Ptr a1]);
    Other (text "[consumeUnique] owns resource @ " ++ [Ptr a1]);
    Use "unique_resource" a1;
    Release "unique_resource" a1;
    Other (text "[Caller] unique_ptr is now empty");
    Other []; Other (text "=== Shared Ownership ===");
    Acquire "shared_resource" a2; OwnerCount 1; OwnerCount 2;
    Use "shared_resource" a2; OwnerCount 1; Use "shared_resource" a2;
    Release "shared_resource" a2;
    Other []; Other (text "=== Observer Ownership ===");
    Acquire "observer_resource" a3;
    Other (text "[Owner] resource @ " ++ [Ptr a3]);
    Other (text "[Observer] sees resource @ " ++ [Ptr a3]);
    Use "observer_resource" a3;
    Release "observer_resource" a3;
    Other []; Other (text "=== End of Program ===") ].

(** An event is "at program end" when the run has nothing left to do after
    it but to release and to print plain lines: no acquisition, use or
    owner count follows it. *)
Definition winding_down (e : event) : bool :=
  match e with
  | Release _ _ | Other _ => true
  | _ => false
  end.

Fixpoint at_program_end (p : event -> bool) (es : list event) : bool :=
  match es with
  | [] => false
  | e :: es' => (p e && forallb winding_down es') || at_program_end p es'
  end.

Definition is_release_of (name : string) (e : event) : bool :=
  match e with
  | Release n _ => String.eqb n name
  | _ => false
  end.

(** C1 in the words of the specification: the order of the traces, with
    the two releases it places at program end. *)
Definition trace_as_specified (a1 a2 a3 : Z) (out : list ochar) : Prop :=
  trace out = claimed_trace a1 a2 a3 /\
  at_program_end (is_release_of "shared_resource") (events out) = true /\
  at_program_end (is_release_of "observer_resource") (events out) = true.

(** [a] occurs in [es] and [b] occurs later. *)
Definition before (a b : event) (es : list event) : Prop :=
  exists l1 l2 l3, es = l1 ++ a :: l2 ++ b :: l3.

(** What [consumeUnique] writes for the unique resource at [p]. *)
Definition consume_output (p : Z) : list ochar :=
  consume_line p ++ use_line "unique_resource" p
  ++ release_line "unique_resource" p.

(** The owner counts a trace reports, in order. *)
Fixpoint owner_counts (es : list event) : list Z :=
  match es with
  | [] => []
  | OwnerCount n :: es' => n :: owner_counts es'
  | _ :: es' => owner_counts es'
  end.

Definition shared_trace (p : Z) : list event :=
  [ Acquire "shared_resource" p; OwnerCount 1; OwnerCount 2;
    Use "shared_resource" p; OwnerCount 1; Use "shared_resource" p;
    Release "shared_resource" p ].

(** A text that fits on one line. *)
Definition no_newline (cs : list ascii) : bool :=
  forallb (fun c => negb (Ascii.eqb c nl)) cs.

Definition one_line (name : string) : bool :=
  no_newline (list_ascii_of_string name).

(** The line [<tag> Resource: <name> @ <pointer>], as [operator<<] builds
    it, without its newline. *)
Definition resource_text (tag name : string) (p : Z) : list ochar :=
  text (tag ++ " Resource: ") ++ text name ++ text " @ " ++ [Ptr p].

(** A pointer argument is null or points to a live [Resource]. *)
Definition valid_argument (res : Z) (w : world) : bool :=
  (res =? nullptr) || bool_decide (is_Some (objs w !! res)).

(** What [observeResource] writes after its own line. *)
Definition observed_use (res : Z) (w : world) : list ochar :=
  if res =? nullptr then []
  else match objs w !! res with
       | Some r => use_line (name_ r) res
       | None => []
       end.

(** A world in which the address 7 holds a live resource. *)
Definition world_with_resource : world :=
  {| objs := {[ 7 := mkResource "observer_resource" ]}; ctrl := ∅;
     cout := []; allocator := [] |}.

(** All that the benchmark writes, for the two durations it measured. *)
Definition benchmark_output (constDuration nonConstDuration : Z) : list ochar :=
  inserts [str "Const method duration: "; dbl constDuration; str (" ms" ++ endl)]
  ++ inserts [str "Non-const method duration: "; dbl nonConstDuration;
              str (" ms" ++ endl)].

(** The newline characters in a piece of output. *)
Fixpoint newlines (s : list ochar) : nat :=
  match s with
  | [] => O
  | Ch c :: s' => if Ascii.eqb c nl then S (newlines s') else newlines s'
  | _ :: s' => newlines s'
  end.

(** The line breaks in a name. *)
Definition line_breaks (name : string) : nat := newlines (text name).

(** The durations printed in a piece of output. *)
Fixpoint durations (s : list ochar) : list Z :=
  match s with
  | [] => []
  | Dbl d :: s' => d :: durations s'
  | _ :: s' => durations s'
  end.

(** One pass of the accumulation loops on the state [(i, sum)]: the body
    [sum += i], then [++i]. *)
Definition loop_step (st : Z * Z) : Z * Z :=
  (int_add (fst st) 1, int_add (snd st) (fst st)).

(** The state after [k] passes from [i = 0], [sum = 0]. *)
Definition after_passes (k : Z) : Z * Z :=
  Nat.iter (Z.to_nat k) loop_step (0, 0).

(** [k] calls of [observeResource] on the same pointer, one after another. *)
Definition observe_times (k : nat) (res : Z) : M world unit :=
  for_from 0 k (fun _ => observeResource res).

End vocabulary.

(** * Properties *)

(** ** 32-bit arithmetic *)

Lemma int_wrap_range (x : Z) : INT_MIN <= int_wrap x <= INT_MAX.
Proof.
  unfold int_wrap, INT_MIN, INT_MAX.
  pose proof (Z.mod_pos_bound (x + 2 ^ 31) (2 ^ 32)). lia.
Qed.

Lemma int_wrap_small (x : Z) : INT_MIN <= x <= INT_MAX -> int_wrap x = x.
Proof.
  unfold int_wrap, INT_MIN, INT_MAX. intros Hx.
  rewrite Z.mod_small; lia.
Qed.

(** Wrapping an operand first changes nothing: only the residue counts. *)
Lemma int_add_wrap_l (x y : Z) : int_add (int_wrap x) y = int_wrap (x + y).
Proof.
  unfold int_add, int_wrap.
  replace ((x + 2 ^ 31) mod 2 ^ 32 - 2 ^ 31 + y + 2 ^ 31)
    with ((x + 2 ^ 31) mod 2 ^ 32 + y) by lia.
  rewrite Zplus_mod_idemp_l. f_equal. f_equal. lia.
Qed.

(** ** The accumulation loops *)

Lemma gauss_succ (n : Z) : gauss (n + 1) = gauss n + n.
Proof.
  unfold gauss.
  replace ((n + 1) * (n + 1 - 1)) with (n * (n - 1) + n * 2) by lia.
  apply Z.div_add. lia.
Qed.

Lemma sum_below_gauss (n : nat) : sum_below n = gauss (Z.of_nat n).
Proof.
  induction n as [| n IH].
  - reflexivity.
  - cbn [sum_below]. rewrite IH, Nat2Z.inj_succ, <- Z.add_1_r, gauss_succ.
    reflexivity.
Qed.

Section loops.
Import const_vs_nonconst.

(** From the state [(i, sum)] the loop of [compute] adds what is left of
    the sum to [sum], modulo 2^32. *)
Lemma compute_loop_closed (m : nat) (i s : Z) :
  0 <= i -> 1000000 - i = Z.of_nat m ->
  compute_loop i (int_wrap s) = int_wrap (s + (gauss 1000000 - gauss i)).
Proof.
  revert i s. induction m as [| m IH]; intros i s Hi Hm;
    rewrite compute_loop_equation_1;
    destruct (Z_lt_dec i 1000000) as [Hlt | Hge];
    cbn [compute_loop_unfold_clause_1]; try lia.
  - replace i with 1000000 by lia. f_equal. lia.
  - replace (int_add i 1) with (i + 1)
      by (unfold int_add; rewrite int_wrap_small; unfold INT_MIN, INT_MAX; lia).
    rewrite int_add_wrap_l, IH by lia.
    rewrite gauss_succ. f_equal. lia.
Qed.

Lemma computeNonConst_loop_closed (m : nat) (i s : Z) :
  0 <= i -> 1000000 - i = Z.of_nat m ->
  computeNonConst_loop i (int_wrap s) = int_wrap (s + (gauss 1000000 - gauss i)).
Proof.
  revert i s. induction m as [| m IH]; intros i s Hi Hm;
    rewrite computeNonConst_loop_equation_1;
    destruct (Z_lt_dec i 1000000) as [Hlt | Hge];
    cbn [computeNonConst_loop_unfold_clause_1]; try lia.
  - replace i with 1000000 by lia. f_equal. lia.
  - replace (int_add i 1) with (i + 1)
      by (unfold int_add; rewrite int_wrap_small; unfold INT_MIN, INT_MAX; lia).
    rewrite int_add_wrap_l, IH by lia.
    rewrite gauss_succ. f_equal. lia.
Qed.

Lemma compute_value (d : Data) : compute d = int_wrap (gauss 1000000).
Proof.
  unfold compute. change 0 with (int_wrap 0) at 2.
  rewrite (compute_loop_closed (Z.to_nat 1000000)) by lia.
  f_equal.
Qed.

Lemma computeNonConst_value (d : Data) :
  computeNonConst d = int_wrap (gauss 1000000).
Proof.
  unfold computeNonConst. change 0 with (int_wrap 0) at 2.
  rewrite (computeNonConst_loop_closed (Z.to_nat 1000000)) by lia.
  f_equal.
Qed.

Lemma sum_below_million : sum_below (Z.to_nat 1000000) = 499999500000.
Proof. rewrite sum_below_gauss, Z2Nat.id by lia. reflexivity. Qed.

Lemma wrapped_sum : int_wrap (gauss 1000000) = 1783293664.
Proof. reflexivity. Qed.

End loops.

Section benchmark_claims.
Import const_vs_nonconst.

Lemma compute_loop_pass (i sum : Z) :
  compute_loop i sum = loop_pass compute_loop i sum.
Proof.
  rewrite compute_loop_equation_1. unfold loop_pass.
  destruct (Z_lt_dec i 1000000) as [Hlt | Hge], (Z.ltb_spec i 1000000);
    cbn [compute_loop_unfold_clause_1]; try lia; reflexivity.
Qed.

Lemma computeNonConst_loop_pass (i sum : Z) :
  computeNonConst_loop i sum = loop_pass computeNonConst_loop i sum.
Proof.
  rewrite computeNonConst_loop_equation_1. unfold loop_pass.
  destruct (Z_lt_dec i 1000000) as [Hlt | Hge], (Z.ltb_spec i 1000000);
    cbn [computeNonConst_loop_unfold_clause_1]; try lia; reflexivity.
Qed.

(** The two loops agree from every state, by induction along the loop of
    [compute]. *)
Lemma loops_agree (i sum : Z) : compute_loop i sum = computeNonConst_loop i sum.
Proof.
  funelim (compute_loop i sum);
    rewrite computeNonConst_loop_pass; unfold loop_pass;
    destruct (Z.ltb_spec i 1000000); try (exfalso; lia).
  - assumption.
  - reflexivity.
Qed.

(** C2, as the code has it: every call of [compute] and of
    [computeNonConst] returns 1783293664, which is the sum
    0 + 1 + ... + 999999 = 499999500000 brought into the range of the
    32-bit accumulator by wrap-around (499999500000 mod 2^32); it does not
    return 499999500000, a value no [int] holds. *)
Theorem compute_returns_wrapped_sum (d : Data) :
  compute d = 1783293664 /\
  computeNonConst d = 1783293664 /\
  1783293664 = int_wrap (sum_below (Z.to_nat 1000000)) /\
  sum_below (Z.to_nat 1000000) = 499999500000 /\
  INT_MAX < 499999500000.
Proof.
  rewrite compute_value, computeNonConst_value, sum_below_million.
  repeat split.
Qed.

(** C2, as stated, fails: neither operation returns 499999500000. *)
Lemma compute_not_full_sum :
  compute mkData <> 499999500000 /\ computeNonConst mkData <> 499999500000.
Proof.
  rewrite compute_value, computeNonConst_value, wrapped_sum.
  split; discriminate.
Qed.

(** C3: [compute] and [computeNonConst] do the same computation: each loop
    runs the same pass (the same bound 1000000, the same increment, the
    same addition), the loops agree from every state [(i, sum)], and the
    two operations return equal values on every object. *)
Theorem compute_computeNonConst_identical :
  (forall i sum, compute_loop i sum = loop_pass compute_loop i sum) /\
  (forall i sum, computeNonConst_loop i sum = loop_pass computeNonConst_loop i sum) /\
  (forall i sum, compute_loop i sum = computeNonConst_loop i sum) /\
  (forall d : Data, compute d = computeNonConst d).
Proof.
  split; [exact compute_loop_pass |].
  split; [exact computeNonConst_loop_pass |].
  split; [exact loops_agree |].
  intros d. unfold compute, computeNonConst. apply loops_agree.
Qed.

End benchmark_claims.

(** ** The lifetime demo: what each operation does to the world *)

Section lifetime_contracts.
Import ownership_and_lifetime.

Lemma bind_Some {W A B} (m : M W A) (k : A -> M W B) (w w' : W) (x : A) :
  m w = Some (x, w') -> bind m k w = k x w'.
Proof. intros H. unfold bind. rewrite H. reflexivity. Qed.

Lemma bind_None {W A B} (m : M W A) (k : A -> M W B) (w : W) :
  m w = None -> bind m k w = None.
Proof. intros H. unfold bind. rewrite H. reflexivity. Qed.

Lemma cout_ins_emit (xs : list item) (w : world) :
  cout_ins xs w = Some (tt, emit (inserts xs) w).
Proof. reflexivity. Qed.

Lemma deref_alive (p : Z) (r : Resource) (w : world) :
  objs w !! p = Some r -> deref p w = Some (r, w).
Proof. intros H. unfold deref. rewrite H. reflexivity. Qed.

Lemma deref_dead (p : Z) (w : world) :
  objs w !! p = None -> deref p w = None.
Proof. intros H. unfold deref. rewrite H. reflexivity. Qed.

(** The constructor starts the lifetime and prints the acquisition line. *)
Lemma Resource_ctor_spec (this : Z) (name : string) (w : world) :
  Resource_ctor this name w =
  Some (tt, {| objs := <[this := mkResource name]> (objs w); ctrl := ctrl w;
               cout := cout w ++ acquire_line name this;
               allocator := allocator w |}).
Proof.
  unfold Resource_ctor, begin_lifetime.
  rewrite (bind_Some _ _ _ _ _ eq_refl).
  rewrite (bind_Some _ _ _ _ _ (deref_alive this (mkResource name) _ (lookup_insert_eq _ _ _))).
  reflexivity.
Qed.

(** [use] on a live object prints its use line and changes nothing else. *)
Lemma Resource_use_spec (this : Z) (r : Resource) (w : world) :
  objs w !! this = Some r ->
  Resource_use this w = Some (tt, emit (use_line (name_ r) this) w).
Proof.
  intros H. unfold Resource_use.
  rewrite (bind_Some _ _ _ _ _ (deref_alive _ _ _ H)). reflexivity.
Qed.

(** [use] on storage that holds no live object has no defined behaviour. *)
Lemma Resource_use_dead (this : Z) (w : world) :
  objs w !! this = None -> Resource_use this w = None.
Proof.
  intros H. unfold Resource_use. apply bind_None, deref_dead, H.
Qed.

(** The destructor prints the release line, with the name the object has
    had since its construction, and ends the lifetime. *)
Lemma Resource_dtor_spec (this : Z) (r : Resource) (w : world) :
  objs w !! this = Some r ->
  Resource_dtor this w =
  Some (tt, {| objs := delete this (objs w); ctrl := ctrl w;
               cout := cout w ++ release_line (name_ r) this;
               allocator := allocator w |}).
Proof.
  intros H. unfold Resource_dtor.
  rewrite (bind_Some _ _ _ _ _ (deref_alive _ _ _ H)). reflexivity.
Qed.

Lemma operator_new_spec (p : Z) (rest : list Z) (w : world) :
  allocator w = p :: rest -> p <> nullptr -> objs w !! p = None ->
  operator_new w =
  Some (p, {| objs := objs w; ctrl := ctrl w; cout := cout w; allocator := rest |}).
Proof.
  intros Ha Hp Hfree. unfold operator_new. rewrite Ha, Hfree.
  apply Z.eqb_neq in Hp. rewrite Hp. reflexivity.
Qed.

Lemma new_Resource_spec (name : string) (p : Z) (rest : list Z) (w : world) :
  allocator w = p :: rest -> p <> nullptr -> objs w !! p = None ->
  new_Resource name w =
  Some (p, {| objs := <[p := mkResource name]> (objs w); ctrl := ctrl w;
              cout := cout w ++ acquire_line name p; allocator := rest |}).
Proof.
  intros Ha Hp Hfree. unfold new_Resource.
  rewrite (bind_Some _ _ _ _ _ (operator_new_spec _ _ _ Ha Hp Hfree)).
  rewrite (bind_Some _ _ _ _ _ (Resource_ctor_spec _ _ _)).
  reflexivity.
Qed.

(** *** [std::unique_ptr] *)

Lemma unique_dtor_null (w : world) : unique_dtor nullptr w = Some (tt, w).
Proof. reflexivity. Qed.

Lemma unique_dtor_owning (u : Z) (r : Resource) (w : world) :
  u <> nullptr -> objs w !! u = Some r ->
  unique_dtor u w =
  Some (tt, {| objs := delete u (objs w); ctrl := ctrl w;
               cout := cout w ++ release_line (name_ r) u;
               allocator := allocator w |}).
Proof.
  intros Hu H. unfold unique_dtor, delete_Resource.
  apply Z.eqb_neq in Hu. rewrite Hu. apply Resource_dtor_spec, H.
Qed.

(** [consumeUnique] prints its line, uses the resource and, as its
    parameter goes out of scope, releases it: the release line is the last
    thing it writes. *)
Lemma consumeUnique_spec (res : Z) (r : Resource) (w : world) :
  res <> nullptr -> objs w !! res = Some r ->
  consumeUnique res w =
  Some (tt, {| objs := delete res (objs w); ctrl := ctrl w;
               cout := cout w ++ consume_line res ++ use_line (name_ r) res
                              ++ release_line (name_ r) res;
               allocator := allocator w |}).
Proof.
  intros Hres H. unfold consumeUnique, unique_get.
  rewrite (bind_Some _ _ _ _ _ (cout_ins_emit _ _)).
  rewrite (bind_Some _ _ _ _ _ (Resource_use_spec res r (emit _ w) H)).
  rewrite (unique_dtor_owning res r) by assumption.
  unfold emit. cbn [objs ctrl cout allocator]. rewrite <- !app_assoc. reflexivity.
Qed.

Lemma uniqueOwnershipScenario_spec (p : Z) (rest : list Z) (w : world) :
  allocator w = p :: rest -> p <> nullptr -> objs w !! p = None ->
  uniqueOwnershipScenario w =
  Some (tt, {| objs := objs w; ctrl := ctrl w;
               cout := cout w ++ unique_output p; allocator := rest |}).
Proof.
  intros Ha Hp Hfree.
  unfold uniqueOwnershipScenario, createUniqueResource, make_unique.
  rewrite (bind_Some _ _ _ _ _ (new_Resource_spec _ _ _ _ Ha Hp Hfree)).
  rewrite (bind_Some _ _ _ _ _ (cout_ins_emit _ _)).
  cbn [unique_move fst snd unique_get].
  rewrite (bind_Some _ _ _ _ _
             (consumeUnique_spec p (mkResource "unique_resource") _ Hp
                (lookup_insert_eq _ _ _))).
  cbn [unique_bool negb nullptr Z.eqb].
  rewrite (bind_Some _ _ _ _ _ (cout_ins_emit _ _)).
  rewrite unique_dtor_null.
  unfold emit. cbn [objs ctrl cout allocator name_].
  rewrite delete_insert_id by assumption.
  unfold unique_output. rewrite <- !app_assoc. reflexivity.
Qed.

(** *** [std::shared_ptr] *)

Lemma use_count_of_spec (p : Z) (n : nat) (w : world) :
  ctrl w !! p = Some n -> use_count_of p w = Some (n, w).
Proof. intros H. unfold use_count_of. rewrite H. reflexivity. Qed.

Lemma make_shared_spec (name : string) (p : Z) (rest : list Z) (w : world) :
  allocator w = p :: rest -> p <> nullptr -> objs w !! p = None ->
  make_shared name w =
  Some (p, {| objs := <[p := mkResource name]> (objs w);
              ctrl := <[p := 1%nat]> (ctrl w);
              cout := cout w ++ acquire_line name p; allocator := rest |}).
Proof.
  intros Ha Hp Hfree. unfold make_shared.
  rewrite (bind_Some _ _ _ _ _ (new_Resource_spec _ _ _ _ Ha Hp Hfree)).
  reflexivity.
Qed.

(** A copy adds one owner and touches neither the object nor the output. *)
Lemma shared_copy_spec (s : Z) (n : nat) (w : world) :
  s <> nullptr -> ctrl w !! s = Some n ->
  shared_copy s w =
  Some (s, {| objs := objs w; ctrl := <[s := S n]> (ctrl w);
              cout := cout w; allocator := allocator w |}).
Proof.
  intros Hs H. unfold shared_copy. apply Z.eqb_neq in Hs. rewrite Hs.
  rewrite (bind_Some _ _ _ _ _ (use_count_of_spec _ _ _ H)). reflexivity.
Qed.

Lemma shared_use_count_spec (s : Z) (n : nat) (w : world) :
  s <> nullptr -> ctrl w !! s = Some n ->
  shared_use_count s w = Some (Z.of_nat n, w).
Proof.
  intros Hs H. unfold shared_use_count. apply Z.eqb_neq in Hs. rewrite Hs.
  rewrite (bind_Some _ _ _ _ _ (use_count_of_spec _ _ _ H)). reflexivity.
Qed.

(** While another owner remains, the destructor of a [shared_ptr] only
    lowers the count: the object stays alive and nothing is printed. *)
Lemma shared_dtor_not_last (s : Z) (n : nat) (w : world) :
  s <> nullptr -> ctrl w !! s = Some (S (S n)) ->
  shared_dtor s w =
  Some (tt, {| objs := objs w; ctrl := <[s := S n]> (ctrl w);
               cout := cout w; allocator := allocator w |}).
Proof.
  intros Hs H. unfold shared_dtor. apply Z.eqb_neq in Hs. rewrite Hs.
  rewrite (bind_Some _ _ _ _ _ (use_count_of_spec _ _ _ H)). reflexivity.
Qed.

(** The destructor of the last owner deletes the object. *)
Lemma shared_dtor_last (s : Z) (r : Resource) (w : world) :
  s <> nullptr -> ctrl w !! s = Some 1%nat -> objs w !! s = Some r ->
  shared_dtor s w =
  Some (tt, {| objs := delete s (objs w); ctrl := delete s (ctrl w);
               cout := cout w ++ release_line (name_ r) s;
               allocator := allocator w |}).
Proof.
  intros Hs H Hr. unfold shared_dtor. apply Z.eqb_neq in Hs. rewrite Hs.
  rewrite (bind_Some _ _ _ _ _ (use_count_of_spec _ _ _ H)).
  unfold drop_control_block, delete_Resource.
  rewrite (bind_Some _ _ _ _ _ eq_refl).
  rewrite (Resource_dtor_spec s r) by exact Hr.
  reflexivity.
Qed.

Lemma sharedOwnershipScenario_spec (p : Z) (rest : list Z) (w : world) :
  allocator w = p :: rest -> p <> nullptr -> objs w !! p = None ->
  sharedOwnershipScenario w =
  Some (tt, {| objs := objs w; ctrl := delete p (ctrl w);
               cout := cout w ++ shared_output p; allocator := rest |}).
Proof.
  intros Ha Hp Hfree. unfold sharedOwnershipScenario, shared_get.
  rewrite (bind_Some _ _ _ _ _ (make_shared_spec _ _ _ _ Ha Hp Hfree)).
  rewrite (bind_Some _ _ _ _ _
             (shared_use_count_spec p 1 _ Hp (lookup_insert_eq _ _ _))).
  rewrite (bind_Some _ _ _ _ _ (cout_ins_emit _ _)).
  (* the inner scope *)
  unfold bind at 1. unfold bind at 1.
  rewrite (shared_copy_spec p 1 (emit _ _) Hp (lookup_insert_eq _ _ _)).
  rewrite (bind_Some _ _ _ _ _
             (shared_use_count_spec p 2 _ Hp (lookup_insert_eq _ _ _))).
  rewrite (bind_Some _ _ _ _ _ (cout_ins_emit _ _)).
  rewrite (bind_Some _ _ _ _ _
             (Resource_use_spec p (mkResource "shared_resource") _
                (lookup_insert_eq _ _ _))).
  rewrite (shared_dtor_not_last p 0 _ Hp (lookup_insert_eq _ _ _)).
  (* back in the outer scope *)
  rewrite (bind_Some _ _ _ _ _
             (shared_use_count_spec p 1 _ Hp (lookup_insert_eq _ _ _))).
  rewrite (bind_Some _ _ _ _ _ (cout_ins_emit _ _)).
  rewrite (bind_Some _ _ _ _ _
             (Resource_use_spec p (mkResource "shared_resource") _
                (lookup_insert_eq _ _ _))).
  rewrite (shared_dtor_last p (mkResource "shared_resource") _ Hp
             (lookup_insert_eq _ _ _) (lookup_insert_eq _ _ _)).
  unfold emit. cbn [objs ctrl cout allocator name_].
  rewrite delete_insert_id by assumption.
  rewrite !delete_insert_eq.
  unfold shared_output. rewrite <- !app_assoc. reflexivity.
Qed.

(** *** The observer *)

Lemma observeResource_null (w : world) :
  observeResource nullptr w = Some (tt, emit (observer_line nullptr) w).
Proof. reflexivity. Qed.

(** A pointer that is not null and holds no live object: the call of [use]
    has no defined behaviour. *)
Lemma observeResource_dangling (res : Z) (w : world) :
  res <> nullptr -> objs w !! res = None -> observeResource res w = None.
Proof.
  intros Hres H. unfold observeResource.
  rewrite (bind_Some _ _ _ _ _ (cout_ins_emit _ _)).
  apply Z.eqb_neq in Hres. rewrite Hres. cbn [negb].
  apply Resource_use_dead, H.
Qed.

Lemma observeResource_alive (res : Z) (r : Resource) (w : world) :
  res <> nullptr -> objs w !! res = Some r ->
  observeResource res w =
  Some (tt, emit (observer_line res ++ use_line (name_ r) res) w).
Proof.
  intros Hres H. unfold observeResource.
  rewrite (bind_Some _ _ _ _ _ (cout_ins_emit _ _)).
  apply Z.eqb_neq in Hres. rewrite Hres. cbn [negb].
  rewrite (Resource_use_spec res r (emit _ w) H).
  unfold emit. cbn [objs ctrl cout allocator]. rewrite <- app_assoc. reflexivity.
Qed.

Lemma observerScenario_spec (p : Z) (rest : list Z) (w : world) :
  allocator w = p :: rest -> p <> nullptr -> objs w !! p = None ->
  observerScenario w =
  Some (tt, {| objs := objs w; ctrl := ctrl w;
               cout := cout w ++ observer_output p; allocator := rest |}).
Proof.
  intros Ha Hp Hfree. unfold observerScenario, make_unique, unique_get.
  rewrite (bind_Some _ _ _ _ _ (new_Resource_spec _ _ _ _ Ha Hp Hfree)).
  rewrite (bind_Some _ _ _ _ _ (cout_ins_emit _ _)).
  rewrite (bind_Some _ _ _ _ _
             (observeResource_alive p (mkResource "observer_resource") _ Hp
                (lookup_insert_eq _ _ _))).
  rewrite (unique_dtor_owning p (mkResource "observer_resource") _ Hp
             (lookup_insert_eq _ _ _)).
  unfold emit. cbn [objs ctrl cout allocator name_].
  rewrite delete_insert_id by assumption.
  unfold observer_output. rewrite <- !app_assoc. reflexivity.
Qed.

(** *** The whole program *)

(** The allocator answers with three addresses that are not null; the
    first resource is gone before the second is made, and the second
    before the third, so the addresses need not differ. *)
Lemma main_spec (a1 a2 a3 : Z) (rest : list Z) :
  a1 <> nullptr -> a2 <> nullptr -> a3 <> nullptr ->
  main (init (a1 :: a2 :: a3 :: rest)) =
  Some (0, {| objs := ∅; ctrl := ∅; cout := main_output a1 a2 a3;
              allocator := rest |}).
Proof.
  intros H1 H2 H3. unfold main.
  rewrite (bind_Some _ _ _ _ _ (cout_ins_emit _ _)).
  erewrite bind_Some;
    [| apply (uniqueOwnershipScenario_spec a1 (a2 :: a3 :: rest));
       [reflexivity | assumption | apply lookup_empty]].
  rewrite (bind_Some _ _ _ _ _ (cout_ins_emit _ _)).
  erewrite bind_Some;
    [| apply (sharedOwnershipScenario_spec a2 (a3 :: rest));
       [reflexivity | assumption | apply lookup_empty]].
  rewrite (bind_Some _ _ _ _ _ (cout_ins_emit _ _)).
  erewrite bind_Some;
    [| apply (observerScenario_spec a3 rest);
       [reflexivity | assumption | apply lookup_empty]].
  rewrite (bind_Some _ _ _ _ _ (cout_ins_emit _ _)).
  unfold ret, emit, init. cbn [objs ctrl cout allocator].
  rewrite delete_empty.
  unfold main_output, header. rewrite <- !app_assoc. reflexivity.
Qed.

(** *** The invariant of shared ownership *)

Ltac run_inv H :=
  unfold make_shared, new_Resource, operator_new, shared_copy, shared_use_count,
    shared_dtor, delete_Resource, Resource_ctor, Resource_dtor, Resource_use,
    use_count_of, set_use_count, drop_control_block, begin_lifetime,
    end_lifetime, deref, cout_ins, undefined, bind, ret in H;
  repeat (case_match; simplify_eq/=).

Lemma init_owners (alloc : list Z) : owners_have_object (init alloc).
Proof. intros p n H. cbn in H. rewrite lookup_empty in H. discriminate. Qed.

Lemma make_shared_owners (name : string) (p : Z) (w w' : world) :
  owners_have_object w -> make_shared name w = Some (p, w') ->
  owners_have_object w'.
Proof.
  intros Hw H. run_inv H. intros q m. cbn.
  destruct (decide (p = q)) as [-> | Hne].
  - rewrite !lookup_insert_eq. intros [= <-]. split; [lia | eauto].
  - rewrite !lookup_insert_ne by assumption. apply Hw.
Qed.

Lemma shared_copy_owners (s s' : Z) (w w' : world) :
  owners_have_object w -> shared_copy s w = Some (s', w') ->
  owners_have_object w' /\ s' = s.
Proof.
  intros Hw H. run_inv H; [split; [assumption | reflexivity] |].
  split; [| reflexivity]. intros q m. cbn.
  destruct (decide (s' = q)) as [-> | Hne].
  - rewrite lookup_insert_eq. intros [= <-]. split; [lia |].
    eapply Hw; eassumption.
  - rewrite lookup_insert_ne by assumption. apply Hw.
Qed.

Lemma shared_dtor_owners (s : Z) (w w' : world) :
  owners_have_object w -> shared_dtor s w = Some (tt, w') ->
  owners_have_object w'.
Proof.
  intros Hw H. run_inv H; [assumption | |]; intros q m; cbn.
  - destruct (decide (s = q)) as [-> | Hne].
    + rewrite lookup_delete_eq. discriminate.
    + rewrite !lookup_delete_ne by assumption. apply Hw.
  - destruct (decide (s = q)) as [-> | Hne].
    + rewrite lookup_insert_eq. intros [= <-]. split; [lia |].
      eapply Hw; eassumption.
    + rewrite lookup_insert_ne by assumption. apply Hw.
Qed.

(** [use] through any owner finds the object alive. *)
Lemma use_through_owner (s : Z) (n : nat) (w : world) :
  owners_have_object w -> ctrl w !! s = Some n ->
  exists r, objs w !! s = Some r /\
            Resource_use (shared_get s) w = Some (tt, emit (use_line (name_ r) s) w) /\
            owners_have_object (emit (use_line (name_ r) s) w).
Proof.
  intros Hw Hn. destruct (Hw s n Hn) as [_ [r Hr]]. exists r.
  split; [exact Hr |]. split; [apply Resource_use_spec, Hr | exact Hw].
Qed.

End lifetime_contracts.

(** ** The lifetime demo: the traces *)

Section lifetime_claims.
Import ownership_and_lifetime.

Lemma events_main_output (a1 a2 a3 : Z) :
  events (main_output a1 a2 a3) = main_events a1 a2 a3.
Proof. reflexivity. Qed.

Lemma trace_main_output (a1 a2 a3 : Z) :
  trace (main_output a1 a2 a3) = claimed_trace a1 a2 a3.
Proof. reflexivity. Qed.

(** C1, as the code has it: a run prints the traces in the order acquire,
    use, release of the unique resource; acquire of the shared resource,
    owner counts 1 and 2, use, owner count 1, use, release; acquire, use,
    release of the observed resource.  Each release is the last line its
    scenario writes: the shared resource is released when
    [sharedOwnershipScenario] returns, before the observer section starts,
    hence not at program end; the observed one is released when
    [observerScenario] returns, and only the end-of-program banner follows
    it. *)
Theorem main_trace_order (a1 a2 a3 : Z) (rest : list Z) :
  a1 <> nullptr -> a2 <> nullptr -> a3 <> nullptr ->
  exists w,
    main (init (a1 :: a2 :: a3 :: rest)) = Some (0, w) /\
    trace (cout w) = claimed_trace a1 a2 a3 /\
    events (cout w) = main_events a1 a2 a3 /\
    last (events (shared_output a2)) = Some (Release "shared_resource" a2) /\
    last (events (observer_output a3)) = Some (Release "observer_resource" a3) /\
    at_program_end (is_release_of "shared_resource") (events (cout w)) = false /\
    at_program_end (is_release_of "observer_resource") (events (cout w)) = true.
Proof.
  intros H1 H2 H3. eexists. split; [apply main_spec; assumption |].
  cbn [cout]. repeat split.
Qed.

Lemma main_trace_order_witness :
  exists w,
    main (init [1; 2; 3]) = Some (0, w) /\
    trace (cout w) = claimed_trace 1 2 3 /\
    events (cout w) = main_events 1 2 3 /\
    last (events (shared_output 2)) = Some (Release "shared_resource" 2) /\
    last (events (observer_output 3)) = Some (Release "observer_resource" 3) /\
    at_program_end (is_release_of "shared_resource") (events (cout w)) = false /\
    at_program_end (is_release_of "observer_resource") (events (cout w)) = true.
Proof.
  apply (main_trace_order 1 2 3 []); unfold nullptr; lia.
Defined.

(** C1, as stated, fails: in the run with the addresses 1, 2 and 3 the
    release of the shared resource is not at program end, the observer
    scenario comes after it. *)
Lemma shared_release_not_at_program_end :
  exists w,
    main (init [1; 2; 3]) = Some (0, w) /\ ~ trace_as_specified 1 2 3 (cout w).
Proof.
  eexists. split; [apply main_spec; unfold nullptr; lia |].
  intros (_ & Hshared & _). cbn [cout] in Hshared.
  rewrite events_main_output in Hshared. discriminate Hshared.
Qed.

(** C4: the exclusive-ownership scenario prints one acquisition and one
    release in all; the release comes after the use inside
    [consumeUnique], and it is [consumeUnique] that prints it, as the last
    thing it does, so that the resource is gone when it returns. *)
Theorem unique_scenario_traces (p : Z) (rest : list Z) (w : world) :
  allocator w = p :: rest -> p <> nullptr -> objs w !! p = None ->
  (exists w',
     uniqueOwnershipScenario w = Some (tt, w') /\
     cout w' = cout w ++ acquire_line "unique_resource" p ++ caller_line p
                      ++ consume_output p ++ empty_line /\
     count is_acquire (events (unique_output p)) = 1%nat /\
     count is_release (events (unique_output p)) = 1%nat /\
     before (Use "unique_resource" p) (Release "unique_resource" p)
            (events (unique_output p))) /\
  (forall w1, objs w1 !! p = Some (mkResource "unique_resource") ->
     exists w2,
       consumeUnique p w1 = Some (tt, w2) /\
       cout w2 = cout w1 ++ consume_output p /\
       events (consume_output p) =
         [ Other (text "[consumeUnique] owns resource @ " ++ [Ptr p]);
           Use "unique_resource" p; Release "unique_resource" p ] /\
       objs w2 !! p = None).
Proof.
  intros Ha Hp Hfree. split.
  - eexists. split; [apply (uniqueOwnershipScenario_spec p rest); assumption |].
    cbn [cout]. split; [reflexivity |]. split; [reflexivity |].
    split; [reflexivity |].
    exists [ Acquire "unique_resource" p;
             Other (text "[Caller] owns resource @ " ++ [Ptr p]);
             Other (text "[consumeUnique] owns resource @ " ++ [Ptr p]) ],
           [], [ Other (text "[Caller] unique_ptr is now empty") ].
    reflexivity.
  - intros w1 Hlive. eexists.
    split; [apply (consumeUnique_spec p _ w1 Hp Hlive) |].
    cbn [cout objs name_]. split; [reflexivity |]. split; [reflexivity |].
    apply lookup_delete_eq.
Qed.

Lemma unique_scenario_traces_witness :
  (exists w',
     uniqueOwnershipScenario (init [7]) = Some (tt, w') /\
     cout w' = cout (init [7]) ++ acquire_line "unique_resource" 7 ++ caller_line 7
                      ++ consume_output 7 ++ empty_line /\
     count is_acquire (events (unique_output 7)) = 1%nat /\
     count is_release (events (unique_output 7)) = 1%nat /\
     before (Use "unique_resource" 7) (Release "unique_resource" 7)
            (events (unique_output 7))) /\
  (forall w1, objs w1 !! 7 = Some (mkResource "unique_resource") ->
     exists w2,
       consumeUnique 7 w1 = Some (tt, w2) /\
       cout w2 = cout w1 ++ consume_output 7 /\
       events (consume_output 7) =
         [ Other (text "[consumeUnique] owns resource @ " ++ [Ptr 7]);
           Use "unique_resource" 7; Release "unique_resource" 7 ] /\
       objs w2 !! 7 = None).
Proof.
  apply (unique_scenario_traces 7 [] (init [7])).
  - reflexivity.
  - unfold nullptr. lia.
  - reflexivity.
Defined.

(** C5: a move hands the pointer to the new owner and leaves the source
    null, so that it tests false and its destructor has nothing to
    release; in the scenario the caller finds its [unique_ptr] empty after
    the call and says so, as the last line of the scenario. *)
Theorem moved_from_owner_is_empty (p : Z) (rest : list Z) (w : world) :
  allocator w = p :: rest -> p <> nullptr -> objs w !! p = None ->
  (forall src,
     fst (unique_move src) = src /\
     unique_get (snd (unique_move src)) = nullptr /\
     unique_bool (snd (unique_move src)) = false /\
     forall w0, unique_dtor (snd (unique_move src)) w0 = Some (tt, w0)) /\
  exists w',
    uniqueOwnershipScenario w = Some (tt, w') /\
    cout w' = cout w ++ unique_output p /\
    last (events (unique_output p)) =
      Some (Other (text "[Caller] unique_ptr is now empty")) /\
    objs w' !! p = None.
Proof.
  intros Ha Hp Hfree. split.
  - intros src. repeat split.
  - eexists. split; [apply (uniqueOwnershipScenario_spec p rest); assumption |].
    cbn [cout objs]. repeat split. assumption.
Qed.

Lemma moved_from_owner_is_empty_witness :
  (forall src,
     fst (unique_move src) = src /\
     unique_get (snd (unique_move src)) = nullptr /\
     unique_bool (snd (unique_move src)) = false /\
     forall w0, unique_dtor (snd (unique_move src)) w0 = Some (tt, w0)) /\
  exists w',
    uniqueOwnershipScenario (init [7]) = Some (tt, w') /\
    cout w' = cout (init [7]) ++ unique_output 7 /\
    last (events (unique_output 7)) =
      Some (Other (text "[Caller] unique_ptr is now empty")) /\
    objs w' !! 7 = None.
Proof.
  apply (moved_from_owner_is_empty 7 [] (init [7])).
  - reflexivity.
  - unfold nullptr. lia.
  - reflexivity.
Defined.

Lemma trace_shared_output (p : Z) : trace (shared_output p) = shared_trace p.
Proof. reflexivity. Qed.

(** No event of the shared scenario has a release before it: up to each
    owner count and each use nothing has been released. *)
Lemma shared_trace_alive (p : Z) (pre post : list event) (e : event) :
  shared_trace p = pre ++ e :: post -> count is_release pre = 0%nat.
Proof.
  unfold shared_trace. intros E.
  do 7 (destruct pre as [| ? pre]; simplify_eq/=; [reflexivity |]).
  destruct pre; discriminate.
Qed.

(** C6: the shared-ownership scenario reports the owner counts 1, 2, 1
    around its inner scope; no release is printed before any of these
    reports nor before either use, the one release is the last event; the use
    through the second owner and the use through the first both succeed;
    a [shared_ptr] that goes away while another owner remains only lowers
    the count, leaving the object alive and the output untouched; and the
    operations of [shared_ptr] keep the invariant that every control block
    counts at least one owner and manages a live object, so that [use]
    through any owner succeeds. *)
Theorem shared_scenario_counts (p : Z) (rest : list Z) (w : world) :
  allocator w = p :: rest -> p <> nullptr -> objs w !! p = None ->
  (exists w',
     sharedOwnershipScenario w = Some (tt, w') /\
     cout w' = cout w ++ shared_output p /\
     trace (shared_output p) = shared_trace p /\
     owner_counts (trace (shared_output p)) = [1; 2; 1] /\
     (forall pre e post,
        trace (shared_output p) = pre ++ e :: post ->
        count is_release pre = 0%nat) /\
     count is_use (trace (shared_output p)) = 2%nat /\
     last (trace (shared_output p)) = Some (Release "shared_resource" p) /\
     objs w' !! p = None /\ ctrl w' !! p = None) /\
  (forall (s : Z) (n : nat) (w1 : world),
     s <> nullptr -> ctrl w1 !! s = Some (S (S n)) ->
     exists w2,
       shared_dtor s w1 = Some (tt, w2) /\
       ctrl w2 !! s = Some (S n) /\
       objs w2 = objs w1 /\ cout w2 = cout w1) /\
  (forall w1, owners_have_object w1 ->
     (forall name q w2,
        make_shared name w1 = Some (q, w2) -> owners_have_object w2) /\
     (forall s s' w2,
        shared_copy s w1 = Some (s', w2) -> owners_have_object w2 /\ s' = s) /\
     (forall s w2,
        shared_dtor s w1 = Some (tt, w2) -> owners_have_object w2) /\
     (forall s n,
        ctrl w1 !! s = Some n ->
        exists r,
          objs w1 !! s = Some r /\
          Resource_use (shared_get s) w1 =
            Some (tt, emit (use_line (name_ r) s) w1) /\
          owners_have_object (emit (use_line (name_ r) s) w1))).
Proof.
  intros Ha Hp Hfree. split; [| split].
  - eexists. split; [apply (sharedOwnershipScenario_spec p rest); assumption |].
    cbn [cout objs ctrl]. rewrite trace_shared_output.
    split; [reflexivity |]. split; [reflexivity |]. split; [reflexivity |].
    split; [intros pre e post; apply shared_trace_alive |].
    split; [reflexivity |]. split; [reflexivity |].
    split; [assumption | apply lookup_delete_eq].
  - intros s n w1 Hs Hn. eexists.
    split; [apply (shared_dtor_not_last s n w1 Hs Hn) |].
    cbn [cout objs ctrl]. split; [apply lookup_insert_eq |]. split; reflexivity.
  - intros w1 Hw1. split; [| split; [| split]].
    + intros name q w2. apply make_shared_owners, Hw1.
    + intros s s' w2. apply shared_copy_owners, Hw1.
    + intros s w2. apply shared_dtor_owners, Hw1.
    + intros s n. apply use_through_owner, Hw1.
Qed.

Lemma shared_scenario_counts_witness :
  (exists w',
     sharedOwnershipScenario (init [7]) = Some (tt, w') /\
     cout w' = cout (init [7]) ++ shared_output 7 /\
     trace (shared_output 7) = shared_trace 7 /\
     owner_counts (trace (shared_output 7)) = [1; 2; 1] /\
     (forall pre e post,
        trace (shared_output 7) = pre ++ e :: post ->
        count is_release pre = 0%nat) /\
     count is_use (trace (shared_output 7)) = 2%nat /\
     last (trace (shared_output 7)) = Some (Release "shared_resource" 7) /\
     objs w' !! 7 = None /\ ctrl w' !! 7 = None) /\
  (forall (s : Z) (n : nat) (w1 : world),
     s <> nullptr -> ctrl w1 !! s = Some (S (S n)) ->
     exists w2,
       shared_dtor s w1 = Some (tt, w2) /\
       ctrl w2 !! s = Some (S n) /\
       objs w2 = objs w1 /\ cout w2 = cout w1) /\
  (forall w1, owners_have_object w1 ->
     (forall name q w2,
        make_shared name w1 = Some (q, w2) -> owners_have_object w2) /\
     (forall s s' w2,
        shared_copy s w1 = Some (s', w2) -> owners_have_object w2 /\ s' = s) /\
     (forall s w2,
        shared_dtor s w1 = Some (tt, w2) -> owners_have_object w2) /\
     (forall s n,
        ctrl w1 !! s = Some n ->
        exists r,
          objs w1 !! s = Some r /\
          Resource_use (shared_get s) w1 =
            Some (tt, emit (use_line (name_ r) s) w1) /\
          owners_have_object (emit (use_line (name_ r) s) w1))).
Proof.
  apply (shared_scenario_counts 7 [] (init [7])).
  - reflexivity.
  - unfold nullptr. lia.
  - reflexivity.
Defined.

(** *** Reading back the line of any resource *)

Lemma lines_from_chars (cs : list ascii) (cur tail : list ochar) :
  no_newline cs = true ->
  lines_from cur (map Ch cs ++ tail) = lines_from (rev (map Ch cs) ++ cur) tail.
Proof.
  revert cur. induction cs as [| c cs IH]; intros cur Hcs.
  - reflexivity.
  - cbn [no_newline forallb] in Hcs. apply andb_prop in Hcs as [Hc Hcs].
    apply negb_true_iff in Hc.
    cbn [map app lines_from rev]. rewrite Hc, IH, <- app_assoc by exact Hcs.
    reflexivity.
Qed.

Lemma strip_prefix_chars (cs : list ascii) (rest : list ochar) :
  strip_prefix cs (map Ch cs ++ rest) = Some rest.
Proof.
  induction cs as [| c cs IH]; [reflexivity |].
  cbn [map app strip_prefix]. rewrite Ascii.eqb_refl. exact IH.
Qed.

Lemma until_ptr_chars (cs : list ascii) (p : Z) (rest : list ochar) :
  until_ptr (map Ch cs ++ Ptr p :: rest) = Some (cs, p, rest).
Proof.
  induction cs as [| c cs IH]; [reflexivity |].
  cbn [map app until_ptr]. rewrite IH. reflexivity.
Qed.

Lemma lines_resource_text (tag name : string) (p : Z) :
  one_line (tag ++ " Resource: ") = true -> one_line name = true ->
  lines (resource_text tag name p ++ [Ch nl]) = [resource_text tag name p].
Proof.
  intros Htag Hname. unfold lines, resource_text, text.
  rewrite <- !app_assoc.
  rewrite (lines_from_chars _ _ _ Htag), (lines_from_chars _ _ _ Hname).
  cbn [list_ascii_of_string map app lines_from Ascii.eqb Bool.eqb nl].
  rewrite app_nil_r. cbn [rev].
  rewrite !rev_app_distr, !rev_involutive, <- !app_assoc. reflexivity.
Qed.

Lemma resource_line_text (tag name : string) (p : Z) :
  resource_line tag (resource_text tag name p) = Some (name, p).
Proof.
  unfold resource_line, resource_text, text.
  rewrite strip_prefix_chars.
  replace (map Ch (list_ascii_of_string name) ++
           map Ch (list_ascii_of_string " @ ") ++ [Ptr p])
    with (map Ch (list_ascii_of_string name ++ list_ascii_of_string " @ ")
          ++ Ptr p :: [])
    by (rewrite map_app, <- app_assoc; reflexivity).
  rewrite until_ptr_chars, rev_app_distr. cbn [list_ascii_of_string rev app].
  rewrite rev_involutive, string_of_list_ascii_of_string. reflexivity.
Qed.

Lemma inserts_resource_text (tag name : string) (p : Z) :
  inserts [str (tag ++ " Resource: "); str name; str " @ "; ptr p; chr nl] =
  resource_text tag name p ++ [Ch nl].
Proof.
  unfold inserts, resource_text. cbn [flat_map insert].
  rewrite <- !app_assoc. reflexivity.
Qed.

Lemma events_acquire_line (name : string) (p : Z) :
  one_line name = true -> events (acquire_line name p) = [Acquire name p].
Proof.
  intros Hname. unfold events.
  change (acquire_line name p)
    with (inserts [str ("[Acquire]" ++ " Resource: "); str name; str " @ "; ptr p; chr nl]).
  rewrite inserts_resource_text, lines_resource_text; [| reflexivity | assumption].
  cbn [map]. unfold classify. rewrite resource_line_text. reflexivity.
Qed.

Lemma events_use_line (name : string) (p : Z) :
  one_line name = true -> events (use_line name p) = [Use name p].
Proof.
  intros Hname. unfold events.
  change (use_line name p)
    with (inserts [str ("[Use]" ++ " Resource: "); str name; str " @ "; ptr p; chr nl]).
  rewrite inserts_resource_text, lines_resource_text; [| reflexivity | assumption].
  cbn [map]. unfold classify. rewrite resource_line_text. reflexivity.
Qed.

Lemma events_release_line (name : string) (p : Z) :
  one_line name = true -> events (release_line name p) = [Release name p].
Proof.
  intros Hname. unfold events.
  change (release_line name p)
    with (inserts [str ("[Release]" ++ " Resource: "); str name; str " @ "; ptr p; chr nl]).
  rewrite inserts_resource_text, lines_resource_text; [| reflexivity | assumption].
  cbn [map]. unfold classify. rewrite resource_line_text. reflexivity.
Qed.

(** The monitor follows one instance through its life: acquired where
    nothing is alive, used any number of times, released. *)
Lemma monitor_uses (name : string) (p : Z) (k : nat) (es : list event)
    (alive : gmap Z string) :
  alive !! p = Some name ->
  monitor (repeat (Use name p) k ++ es) alive = monitor es alive.
Proof.
  intros Hp. induction k as [| k IH]; [reflexivity |].
  cbn [repeat app monitor]. rewrite Hp, String.eqb_refl. exact IH.
Qed.

Lemma monitor_lifecycle (name : string) (p : Z) (k : nat) (alive : gmap Z string) :
  alive !! p = None ->
  monitor (Acquire name p :: repeat (Use name p) k ++ [Release name p]) alive =
  Some alive.
Proof.
  intros Hp. cbn [monitor]. rewrite Hp.
  rewrite monitor_uses by apply lookup_insert_eq.
  cbn [monitor]. rewrite lookup_insert_eq, String.eqb_refl.
  rewrite delete_insert_id by exact Hp. reflexivity.
Qed.

(** It rejects a use before the acquisition, a use after the release, a
    second release, and a release under another name. *)
Lemma monitor_rejects :
  monitor [Use "r" 1] ∅ = None /\
  monitor [Acquire "r" 1; Release "r" 1; Use "r" 1] ∅ = None /\
  monitor [Acquire "r" 1; Release "r" 1; Release "r" 1] ∅ = None /\
  monitor [Acquire "r" 1; Release "s" 1] ∅ = None /\
  monitor [Acquire "r" 1; Acquire "s" 1] ∅ = None.
Proof. vm_compute. repeat split. Qed.

(** The monitor accepts a whole run and ends with no instance alive. *)
Lemma monitor_main_events (a1 a2 a3 : Z) :
  monitor (main_events a1 a2 a3) ∅ = Some ∅.
Proof.
  unfold main_events.
  repeat (cbn [monitor];
          rewrite ?lookup_empty, ?lookup_insert_eq, ?delete_insert_eq,
            ?delete_empty, ?String.eqb_refl).
  reflexivity.
Qed.

Lemma markers_app (s t : list ochar) : markers (s ++ t) = markers s ++ markers t.
Proof.
  induction s as [| [c | q | d] s IH]; cbn [app markers]; try exact IH.
  - reflexivity.
  - rewrite IH. reflexivity.
Qed.

Lemma markers_chars (cs : list ascii) : markers (map Ch cs) = [].
Proof. induction cs as [| c cs IH]; [reflexivity | exact IH]. Qed.

(** The text of a resource line carries one identity marker, the pointer,
    whatever the name. *)
Lemma markers_resource_text (tag name : string) (p : Z) :
  markers (resource_text tag name p ++ [Ch nl]) = [p].
Proof.
  unfold resource_text, text. rewrite !markers_app, !markers_chars. reflexivity.
Qed.

Lemma acquire_line_text (name : string) (p : Z) :
  acquire_line name p = resource_text "[Acquire]" name p ++ [Ch nl].
Proof. apply (inserts_resource_text "[Acquire]"). Qed.

Lemma use_line_text (name : string) (p : Z) :
  use_line name p = resource_text "[Use]" name p ++ [Ch nl].
Proof. apply (inserts_resource_text "[Use]"). Qed.

Lemma release_line_text (name : string) (p : Z) :
  release_line name p = resource_text "[Release]" name p ++ [Ch nl].
Proof. apply (inserts_resource_text "[Release]"). Qed.

(** C7: for every [Resource], whatever its name and its address [this],
    the constructor writes exactly one acquisition trace and starts the
    lifetime; while the object is alive each [use] writes exactly one use
    trace and leaves the object as it is, and the destructor writes
    exactly one release trace, with the name and the marker of the
    acquisition, and ends the lifetime.  Each trace is its text and a
    newline; the text reads back as the name and the marker, and carries
    that one marker; where the name has no line break the trace is one
    line of the output and reads back as one event.  [use] has no defined
    outcome on storage without a live object.  In a whole run of the
    program the traces follow the state machine of each instance: three
    acquisitions, each at a marker that is not alive, every use and
    release on an instance that is alive under that name, three releases,
    and no instance left alive. *)
Theorem Resource_traces (this : Z) (name : string) (w : world) :
  (exists w1,
     Resource_ctor this name w = Some (tt, w1) /\
     cout w1 = cout w ++ acquire_line name this /\
     acquire_line name this = resource_text "[Acquire]" name this ++ [Ch nl] /\
     resource_line "[Acquire]" (resource_text "[Acquire]" name this) =
       Some (name, this) /\
     markers (acquire_line name this) = [this] /\
     (one_line name = true ->
      events (acquire_line name this) = [Acquire name this]) /\
     objs w1 !! this = Some (mkResource name)) /\
  (forall w1, objs w1 !! this = Some (mkResource name) ->
     (exists w2,
        Resource_use this w1 = Some (tt, w2) /\
        cout w2 = cout w1 ++ use_line name this /\
        use_line name this = resource_text "[Use]" name this ++ [Ch nl] /\
        resource_line "[Use]" (resource_text "[Use]" name this) =
          Some (name, this) /\
        markers (use_line name this) = [this] /\
        (one_line name = true ->
         events (use_line name this) = [Use name this]) /\
        objs w2 = objs w1) /\
     (exists w2,
        Resource_dtor this w1 = Some (tt, w2) /\
        cout w2 = cout w1 ++ release_line name this /\
        release_line name this = resource_text "[Release]" name this ++ [Ch nl] /\
        resource_line "[Release]" (resource_text "[Release]" name this) =
          Some (name, this) /\
        markers (release_line name this) = [this] /\
        (one_line name = true ->
         events (release_line name this) = [Release name this]) /\
        objs w2 !! this = None)) /\
  (forall w0, objs w0 !! this = None -> Resource_use this w0 = None) /\
  (forall k alive,
     alive !! this = None ->
     monitor (Acquire name this :: repeat (Use name this) k
                ++ [Release name this]) alive = Some alive) /\
  (forall a1 a2 a3 rest,
     a1 <> nullptr -> a2 <> nullptr -> a3 <> nullptr ->
     exists wf,
       main (init (a1 :: a2 :: a3 :: rest)) = Some (0, wf) /\
       monitor (events (cout wf)) ∅ = Some ∅ /\
       count is_acquire (events (cout wf)) = 3%nat /\
       count is_use (events (cout wf)) = 4%nat /\
       count is_release (events (cout wf)) = 3%nat).
Proof.
  split; [| split; [| split; [| split]]].
  - eexists. split; [apply Resource_ctor_spec |]. cbn [cout objs].
    split; [reflexivity |]. split; [apply acquire_line_text |].
    split; [apply resource_line_text |].
    split; [rewrite acquire_line_text; apply markers_resource_text |].
    split; [apply events_acquire_line | apply lookup_insert_eq].
  - intros w1 Hlive. split.
    + eexists. split; [apply (Resource_use_spec this _ w1 Hlive) |].
      cbn [emit cout objs name_]. split; [reflexivity |].
      split; [apply use_line_text |]. split; [apply resource_line_text |].
      split; [rewrite use_line_text; apply markers_resource_text |].
      split; [apply events_use_line | reflexivity].
    + eexists. split; [apply (Resource_dtor_spec this _ w1 Hlive) |].
      cbn [cout objs name_]. split; [reflexivity |].
      split; [apply release_line_text |]. split; [apply resource_line_text |].
      split; [rewrite release_line_text; apply markers_resource_text |].
      split; [apply events_release_line | apply lookup_delete_eq].
  - intros w0. apply Resource_use_dead.
  - intros k alive. apply monitor_lifecycle.
  - intros a1 a2 a3 rest H1 H2 H3. eexists.
    split; [apply main_spec; assumption |]. cbn [cout].
    rewrite events_main_output. split; [apply monitor_main_events |].
    repeat split.
Qed.

Lemma Resource_traces_witness :
  (exists w1,
     Resource_ctor 7 "unique_resource" (init []) = Some (tt, w1) /\
     cout w1 = cout (init []) ++ acquire_line "unique_resource" 7 /\
     acquire_line "unique_resource" 7 = resource_text "[Acquire]" "unique_resource" 7 ++ [Ch nl] /\
     resource_line "[Acquire]" (resource_text "[Acquire]" "unique_resource" 7) =
       Some ("unique_resource", 7) /\
     markers (acquire_line "unique_resource" 7) = [7] /\
     (one_line "unique_resource" = true ->
      events (acquire_line "unique_resource" 7) = [Acquire "unique_resource" 7]) /\
     objs w1 !! 7 = Some (mkResource "unique_resource")) /\
  (forall w1, objs w1 !! 7 = Some (mkResource "unique_resource") ->
     (exists w2,
        Resource_use 7 w1 = Some (tt, w2) /\
        cout w2 = cout w1 ++ use_line "unique_resource" 7 /\
        use_line "unique_resource" 7 = resource_text "[Use]" "unique_resource" 7 ++ [Ch nl] /\
        resource_line "[Use]" (resource_text "[Use]" "unique_resource" 7) =
          Some ("unique_resource", 7) /\
        markers (use_line "unique_resource" 7) = [7] /\
        (one_line "unique_resource" = true ->
         events (use_line "unique_resource" 7) = [Use "unique_resource" 7]) /\
        objs w2 = objs w1) /\
     (exists w2,
        Resource_dtor 7 w1 = Some (tt, w2) /\
        cout w2 = cout w1 ++ release_line "unique_resource" 7 /\
        release_line "unique_resource" 7 = resource_text "[Release]" "unique_resource" 7 ++ [Ch nl] /\
        resource_line "[Release]" (resource_text "[Release]" "unique_resource" 7) =
          Some ("unique_resource", 7) /\
        markers (release_line "unique_resource" 7) = [7] /\
        (one_line "unique_resource" = true ->
         events (release_line "unique_resource" 7) = [Release "unique_resource" 7]) /\
        objs w2 !! 7 = None)) /\
  (forall w0, objs w0 !! 7 = None -> Resource_use 7 w0 = None) /\
  (forall k alive,
     alive !! 7 = None ->
     monitor (Acquire "unique_resource" 7 :: repeat (Use "unique_resource" 7) k
                ++ [Release "unique_resource" 7]) alive = Some alive) /\
  (forall a1 a2 a3 rest,
     a1 <> nullptr -> a2 <> nullptr -> a3 <> nullptr ->
     exists wf,
       main (init (a1 :: a2 :: a3 :: rest)) = Some (0, wf) /\
       monitor (events (cout wf)) ∅ = Some ∅ /\
       count is_acquire (events (cout wf)) = 3%nat /\
       count is_use (events (cout wf)) = 4%nat /\
       count is_release (events (cout wf)) = 3%nat).
Proof.
  apply (Resource_traces 7 "unique_resource" (init [])).
Defined.

(** C8: in the observer scenario the owner and the observer print the same
    identity marker, the address of the resource.  [observeResource]
    prints its line and the use line and then returns with every object
    and every owner count as it found them: nothing it writes is a release.
    The release is the last line of the scenario, printed when the owner
    goes out of scope. *)
Theorem observer_sees_owner_marker (p : Z) (rest : list Z) (w : world) :
  allocator w = p :: rest -> p <> nullptr -> objs w !! p = None ->
  (exists w',
     observerScenario w = Some (tt, w') /\
     cout w' = cout w ++ observer_output p /\
     events (observer_output p) =
       [ Acquire "observer_resource" p;
         Other (text "[Owner] resource @ " ++ [Ptr p]);
         Other (text "[Observer] sees resource @ " ++ [Ptr p]);
         Use "observer_resource" p;
         Release "observer_resource" p ] /\
     markers (observer_line p) = markers (owner_line p) /\
     markers (owner_line p) = [p] /\
     markers (acquire_line "observer_resource" p) = [p]) /\
  (forall w1, objs w1 !! p = Some (mkResource "observer_resource") ->
     exists w2,
       observeResource p w1 = Some (tt, w2) /\
       cout w2 = cout w1 ++ observer_line p ++ use_line "observer_resource" p /\
       count is_release
         (events (observer_line p ++ use_line "observer_resource" p)) = 0%nat /\
       objs w2 = objs w1 /\ ctrl w2 = ctrl w1).
Proof.
  intros Ha Hp Hfree. split.
  - eexists. split; [apply (observerScenario_spec p rest); assumption |].
    cbn [cout]. repeat split.
  - intros w1 Hlive. eexists.
    split; [apply (observeResource_alive p _ w1 Hp Hlive) |].
    cbn [emit cout objs ctrl name_]. repeat split.
Qed.

Lemma observer_sees_owner_marker_witness :
  (exists w',
     observerScenario (init [7]) = Some (tt, w') /\
     cout w' = cout (init [7]) ++ observer_output 7 /\
     events (observer_output 7) =
       [ Acquire "observer_resource" 7;
         Other (text "[Owner] resource @ " ++ [Ptr 7]);
         Other (text "[Observer] sees resource @ " ++ [Ptr 7]);
         Use "observer_resource" 7;
         Release "observer_resource" 7 ] /\
     markers (observer_line 7) = markers (owner_line 7) /\
     markers (owner_line 7) = [7] /\
     markers (acquire_line "observer_resource" 7) = [7]) /\
  (forall w1, objs w1 !! 7 = Some (mkResource "observer_resource") ->
     exists w2,
       observeResource 7 w1 = Some (tt, w2) /\
       cout w2 = cout w1 ++ observer_line 7 ++ use_line "observer_resource" 7 /\
       count is_release
         (events (observer_line 7 ++ use_line "observer_resource" 7)) = 0%nat /\
       objs w2 = objs w1 /\ ctrl w2 = ctrl w1).
Proof.
  apply (observer_sees_owner_marker 7 [] (init [7])).
  - reflexivity.
  - unfold nullptr. lia.
  - reflexivity.
Defined.

(** C10, as the code has it: on every pointer argument that is null or
    points to a live [Resource], [observeResource] returns, having changed
    nothing but standard output: it has written the observer line with
    the address it was given, and after it the use line of the resource
    exactly when the pointer is not null, so that a null argument gives
    the observer line and nothing else. *)
Theorem observeResource_total (res : Z) (w : world) :
  valid_argument res w = true ->
  exists w',
    observeResource res w = Some (tt, w') /\
    cout w' = cout w ++ observer_line res ++ observed_use res w /\
    (res = nullptr <-> observed_use res w = []) /\
    (res = nullptr -> cout w' = cout w ++ observer_line nullptr) /\
    (forall r, res <> nullptr -> objs w !! res = Some r ->
       observed_use res w = use_line (name_ r) res) /\
    objs w' = objs w /\ ctrl w' = ctrl w /\ allocator w' = allocator w.
Proof.
  intros Hvalid. unfold valid_argument, observed_use in *.
  destruct (Z.eqb_spec res nullptr) as [-> | Hres].
  - eexists. split; [apply observeResource_null |].
    cbn [emit cout objs ctrl allocator]. rewrite app_nil_r.
    repeat split. intros r Hne. contradiction.
  - cbn [orb] in Hvalid. apply bool_decide_eq_true in Hvalid as [r Hr].
    rewrite Hr. eexists.
    split; [apply (observeResource_alive res r w Hres Hr) |].
    cbn [emit cout objs ctrl allocator]. repeat split.
    + intros ->. contradiction.
    + discriminate.
    + intros ->. contradiction.
    + intros r' _ [= <-]. reflexivity.
Qed.

Lemma observeResource_total_witness :
  valid_argument 7 world_with_resource = true /\
  exists w',
    observeResource 7 world_with_resource = Some (tt, w') /\
    cout w' = cout world_with_resource ++ observer_line 7
              ++ observed_use 7 world_with_resource /\
    (7 = nullptr <-> observed_use 7 world_with_resource = []) /\
    (7 = nullptr -> cout w' = cout world_with_resource ++ observer_line nullptr) /\
    (forall r, 7 <> nullptr -> objs world_with_resource !! 7 = Some r ->
       observed_use 7 world_with_resource = use_line (name_ r) 7) /\
    objs w' = objs world_with_resource /\ ctrl w' = ctrl world_with_resource /\
    allocator w' = allocator world_with_resource.
Proof.
  split; [reflexivity |].
  apply (observeResource_total 7 world_with_resource). reflexivity.
Defined.

(** C10, as stated, fails: the address 5 is not null and holds no live
    [Resource] in the empty world; [observeResource] calls [use] through
    it, and the call does not return. *)
Lemma observeResource_not_total :
  5 <> nullptr /\
  ~ (exists w', observeResource 5 (init []) = Some (tt, w')).
Proof.
  split; [unfold nullptr; lia |].
  intros [w' H].
  rewrite (observeResource_dangling 5 (init [])) in H;
    [discriminate H | unfold nullptr; lia | reflexivity].
Qed.

End lifetime_claims.

(** ** Two runs of a program *)

Section runs.

(** A loop whose body always returns and leaves the world alone does so
    too. *)
Lemma for_from_pure {W} (n : nat) (i : Z) (body : Z -> M W unit) (w : W) :
  (forall j w0, body j w0 = Some (tt, w0)) -> for_from i n body w = Some (tt, w).
Proof.
  intros Hbody. revert i. induction n as [| n IH]; intros i.
  - reflexivity.
  - cbn [for_from]. rewrite (bind_Some _ _ _ _ _ (Hbody i w)). apply IH.
Qed.

Lemma now_spec (t : Z) (rest : list Z) (out : list ochar) :
  const_vs_nonconst.now
    {| const_vs_nonconst.clock := t :: rest; const_vs_nonconst.cout := out |} =
  Some (t, {| const_vs_nonconst.clock := rest; const_vs_nonconst.cout := out |}).
Proof. reflexivity. Qed.

Lemma discard_spec (v : Z) (w : const_vs_nonconst.world) :
  const_vs_nonconst.discard v w = Some (tt, w).
Proof. reflexivity. Qed.

(** The benchmark reads the clock four times and prints the two
    differences. *)
Lemma benchmark_main_spec (t1 t2 t3 t4 : Z) (rest : list Z) (out : list ochar) :
  const_vs_nonconst.main
    {| const_vs_nonconst.clock := t1 :: t2 :: t3 :: t4 :: rest;
       const_vs_nonconst.cout := out |} =
  Some (0, {| const_vs_nonconst.clock := rest;
              const_vs_nonconst.cout :=
                out ++ benchmark_output (int64_sub t2 t1) (int64_sub t4 t3) |}).
Proof.
  unfold const_vs_nonconst.main.
  rewrite (bind_Some _ _ _ _ _ (now_spec _ _ _)).
  erewrite (bind_Some (for_from _ _ _));
    [| apply for_from_pure; intros j w0; apply discard_spec].
  rewrite (bind_Some _ _ _ _ _ (now_spec _ _ _)).
  rewrite (bind_Some _ _ _ _ _ (now_spec _ _ _)).
  erewrite (bind_Some (for_from _ _ _));
    [| apply for_from_pure; intros j w0; apply discard_spec].
  rewrite (bind_Some _ _ _ _ _ (now_spec _ _ _)).
  unfold bind, const_vs_nonconst.cout_ins, ret.
  cbn [const_vs_nonconst.clock const_vs_nonconst.cout].
  unfold benchmark_output. rewrite <- app_assoc. reflexivity.
Qed.

Lemma skeleton_main_output (a1 a2 a3 b1 b2 b3 : Z) :
  skeleton (main_output a1 a2 a3) = skeleton (main_output b1 b2 b3).
Proof. vm_compute. reflexivity. Qed.

Lemma kinds_main_output (a1 a2 a3 b1 b2 b3 : Z) :
  map ownership_and_lifetime.kind_of
    (ownership_and_lifetime.events (main_output a1 a2 a3)) =
  map ownership_and_lifetime.kind_of
    (ownership_and_lifetime.events (main_output b1 b2 b3)).
Proof. vm_compute. reflexivity. Qed.

Lemma skeleton_benchmark_output (d1 d2 e1 e2 : Z) :
  skeleton (benchmark_output d1 d2) = skeleton (benchmark_output e1 e2).
Proof. vm_compute. reflexivity. Qed.

End runs.

(** C9: two runs of the lifetime demo, whatever addresses the allocator
    hands out, and two runs of the benchmark, whatever the clock reads,
    both complete and write outputs of one structure: the same characters
    in the same places, and for the lifetime demo the same events in the
    same order, hence in the same numbers.  Only the pointer values and
    the durations differ. *)
Theorem runs_same_structure
    (a1 a2 a3 b1 b2 b3 : Z) (ra rb : list Z)
    (t1 t2 t3 t4 u1 u2 u3 u4 : Z) (rt ru : list Z) :
  a1 <> 0 -> a2 <> 0 -> a3 <> 0 -> b1 <> 0 -> b2 <> 0 -> b3 <> 0 ->
  (exists w w',
     ownership_and_lifetime.main
       (ownership_and_lifetime.init (a1 :: a2 :: a3 :: ra)) = Some (0, w) /\
     ownership_and_lifetime.main
       (ownership_and_lifetime.init (b1 :: b2 :: b3 :: rb)) = Some (0, w') /\
     skeleton (ownership_and_lifetime.cout w) =
       skeleton (ownership_and_lifetime.cout w') /\
     map ownership_and_lifetime.kind_of
         (ownership_and_lifetime.events (ownership_and_lifetime.cout w)) =
       map ownership_and_lifetime.kind_of
         (ownership_and_lifetime.events (ownership_and_lifetime.cout w'))) /\
  (exists v v',
     const_vs_nonconst.main
       (const_vs_nonconst.mkWorld (t1 :: t2 :: t3 :: t4 :: rt) []) = Some (0, v) /\
     const_vs_nonconst.main
       (const_vs_nonconst.mkWorld (u1 :: u2 :: u3 :: u4 :: ru) []) = Some (0, v') /\
     skeleton (const_vs_nonconst.cout v) = skeleton (const_vs_nonconst.cout v') /\
     List.length (lines (const_vs_nonconst.cout v)) = 2%nat /\
     List.length (lines (const_vs_nonconst.cout v')) = 2%nat).
Proof.
  intros Ha1 Ha2 Ha3 Hb1 Hb2 Hb3. split.
  - do 2 eexists.
    split; [apply main_spec; assumption |].
    split; [apply main_spec; assumption |].
    cbn [ownership_and_lifetime.cout].
    split; [apply skeleton_main_output | apply kinds_main_output].
  - do 2 eexists.
    split; [apply benchmark_main_spec |].
    split; [apply benchmark_main_spec |].
    cbn [const_vs_nonconst.cout app].
    split; [apply skeleton_benchmark_output |].
    split; reflexivity.
Qed.

Lemma runs_same_structure_witness :
  (exists w w',
     ownership_and_lifetime.main
       (ownership_and_lifetime.init [1; 2; 3]) = Some (0, w) /\
     ownership_and_lifetime.main
       (ownership_and_lifetime.init [5; 5; 9]) = Some (0, w') /\
     skeleton (ownership_and_lifetime.cout w) =
       skeleton (ownership_and_lifetime.cout w') /\
     map ownership_and_lifetime.kind_of
         (ownership_and_lifetime.events (ownership_and_lifetime.cout w)) =
       map ownership_and_lifetime.kind_of
         (ownership_and_lifetime.events (ownership_and_lifetime.cout w'))) /\
  (exists v v',
     const_vs_nonconst.main
       (const_vs_nonconst.mkWorld [10; 25; 30; 41] []) = Some (0, v) /\
     const_vs_nonconst.main
       (const_vs_nonconst.mkWorld [100; 117; 120; 139] []) = Some (0, v') /\
     skeleton (const_vs_nonconst.cout v) = skeleton (const_vs_nonconst.cout v') /\
     List.length (lines (const_vs_nonconst.cout v)) = 2%nat /\
     List.length (lines (const_vs_nonconst.cout v')) = 2%nat).
Proof.
  apply (runs_same_structure 1 2 3 5 5 9 [] [] 10 25 30 41 100 117 120 139 [] []);
    lia.
Defined.

(** * Further properties of the code *)

(** ** The lifetime demo: every run that returns *)

Section lifetime_runs.
Import ownership_and_lifetime.

Lemma operator_new_inv (p : Z) (w w' : world) :
  operator_new w = Some (p, w') ->
  exists rest, allocator w = p :: rest /\ p <> nullptr /\ objs w !! p = None.
Proof.
  unfold operator_new. intros H.
  destruct (allocator w) as [| q rest]; [discriminate |].
  destruct ((q =? nullptr) || bool_decide (is_Some (objs w !! q))) eqn:B;
    [discriminate |].
  injection H as <- _. apply orb_false_elim in B as [Hq Hfree].
  apply Z.eqb_neq in Hq. apply bool_decide_eq_false in Hfree.
  exists rest. repeat split; [assumption |].
  apply eq_None_not_Some, Hfree.
Qed.

Lemma new_Resource_inv (name : string) (p : Z) (w w' : world) :
  new_Resource name w = Some (p, w') ->
  exists rest, allocator w = p :: rest /\ p <> nullptr /\ objs w !! p = None.
Proof.
  unfold new_Resource. intros H.
  destruct (operator_new w) as [[q w1] |] eqn:Hnew.
  - rewrite (bind_Some _ _ _ _ _ Hnew) in H.
    rewrite (bind_Some _ _ _ _ _ (Resource_ctor_spec _ _ _)) in H.
    injection H as <- _. apply (operator_new_inv _ _ _ Hnew).
  - rewrite (bind_None _ _ _ Hnew) in H. discriminate.
Qed.

(** X1: whenever [createUniqueResource] returns, the owner it returns is
    not null and tests true, its address held no live object before and
    holds the resource named unique_resource now, every other object and
    every owner count is as before, one address has been taken from the
    allocator, and the acquisition line is all that was written. *)
Theorem createUniqueResource_fresh_owner (p : Z) (w w' : world) :
  createUniqueResource w = Some (p, w') ->
  p <> nullptr /\ unique_bool p = true /\
  objs w !! p = None /\
  objs w' = <[p := mkResource "unique_resource"]> (objs w) /\
  ctrl w' = ctrl w /\
  allocator w = p :: allocator w' /\
  cout w' = cout w ++ acquire_line "unique_resource" p.
Proof.
  unfold createUniqueResource, make_unique. intros H.
  destruct (new_Resource_inv _ _ _ _ H) as (rest & Ha & Hp & Hfree).
  rewrite (new_Resource_spec _ p rest w Ha Hp Hfree) in H.
  injection H as <-. cbn [objs ctrl cout allocator].
  unfold unique_bool. apply Z.eqb_neq in Hp as Hp'. rewrite Hp'.
  repeat split; assumption.
Qed.

Lemma createUniqueResource_fresh_owner_witness :
  exists w',
    createUniqueResource (init [7]) = Some (7, w') /\
    7 <> nullptr /\ unique_bool 7 = true /\
    objs (init [7]) !! 7 = None /\
    objs w' = <[7 := mkResource "unique_resource"]> (objs (init [7])) /\
    ctrl w' = ctrl (init [7]) /\
    allocator (init [7]) = 7 :: allocator w' /\
    cout w' = cout (init [7]) ++ acquire_line "unique_resource" 7.
Proof.
  eexists. split; [reflexivity |].
  apply (createUniqueResource_fresh_owner 7 (init [7])). reflexivity.
Defined.

Lemma consumeUnique_body_dead (q : Z) (w : world) :
  objs w !! q = None -> consumeUnique_body q w = None.
Proof.
  intros Hq. unfold consumeUnique_body.
  rewrite (bind_Some _ _ _ _ _ (cout_ins_emit _ _)).
  apply Resource_use_dead, Hq.
Qed.

Lemma consumeUnique_body_alive (q : Z) (r : Resource) (w : world) :
  objs w !! q = Some r ->
  consumeUnique_body q w =
  Some (tt, emit (consume_line q ++ use_line (name_ r) q) w).
Proof.
  intros Hq. unfold consumeUnique_body, unique_get.
  rewrite (bind_Some _ _ _ _ _ (cout_ins_emit _ _)).
  rewrite (Resource_use_spec q r (emit _ w) Hq).
  unfold emit. cbn [objs ctrl cout allocator]. rewrite <- app_assoc. reflexivity.
Qed.

(** A call of [consumeUnique] is its statements and then the end of its
    parameter. *)
Lemma consumeUnique_call (res : Z) (w : world) :
  consumeUnique res w = (consumeUnique_body res ;; unique_dtor res) w.
Proof. reflexivity. Qed.

(** X2: the statements of [consumeUnique] dereference the argument without
    a test.  In a world where the null address holds no object they run to
    their end exactly when the argument owns a live object; with an empty
    owner they have no defined behaviour, and so has the call.  When they
    have run, the argument was not null, they have written the line of
    [consumeUnique] and the use line of the object, in this order, and
    nothing else has changed: the object is still alive, its release comes
    with the end of the parameter, which ends the call. *)
Theorem consumeUnique_needs_live_owner (res : Z) (w : world) :
  objs w !! nullptr = None ->
  (is_Some (consumeUnique_body res w) <-> is_Some (objs w !! res)) /\
  consumeUnique_body nullptr w = None /\
  (forall w', consumeUnique_body res w = Some (tt, w') ->
     res <> nullptr /\
     objs w' = objs w /\ ctrl w' = ctrl w /\ allocator w' = allocator w /\
     exists r, objs w !! res = Some r /\
       cout w' = cout w ++ consume_line res ++ use_line (name_ r) res) /\
  (forall w0,
     consumeUnique res w0 = (consumeUnique_body res ;; unique_dtor res) w0) /\
  (is_Some (consumeUnique res w) <-> is_Some (objs w !! res)) /\
  consumeUnique nullptr w = None.
Proof.
  intros Hnull.
  assert (Hcall : forall q, objs w !! q = None -> consumeUnique q w = None).
  { intros q Hq. rewrite consumeUnique_call.
    apply bind_None, consumeUnique_body_dead, Hq. }
  split; [| split; [| split; [| split; [| split]]]].
  - split.
    + intros [x Hx]. destruct (objs w !! res) eqn:E; [eauto |].
      rewrite (consumeUnique_body_dead res w E) in Hx. discriminate.
    + intros [r Hr]. rewrite (consumeUnique_body_alive res r w Hr). eauto.
  - apply consumeUnique_body_dead, Hnull.
  - intros w' H. destruct (objs w !! res) as [r |] eqn:E.
    + assert (Hres : res <> nullptr) by (intros ->; congruence).
      rewrite (consumeUnique_body_alive res r w E) in H. injection H as <-.
      cbn [emit objs ctrl cout allocator]. repeat split; try assumption.
      exists r. split; reflexivity.
    + rewrite (consumeUnique_body_dead res w E) in H. discriminate.
  - intros w0. apply consumeUnique_call.
  - split.
    + intros [x Hx]. destruct (objs w !! res) eqn:E; [eauto |].
      rewrite (Hcall res E) in Hx. discriminate.
    + intros [r Hr].
      assert (res <> nullptr) by (intros ->; congruence).
      rewrite (consumeUnique_spec res r w) by assumption. eauto.
  - apply Hcall, Hnull.
Qed.

Lemma consumeUnique_needs_live_owner_witness :
  objs world_with_resource !! nullptr = None /\
  (is_Some (consumeUnique_body 7 world_with_resource) <->
   is_Some (objs world_with_resource !! 7)) /\
  consumeUnique_body nullptr world_with_resource = None.
Proof.
  split; [reflexivity |].
  destruct (consumeUnique_needs_live_owner 7 world_with_resource eq_refl)
    as (Hiff & Hnull & _).
  split; [exact Hiff | exact Hnull].
Defined.

Lemma make_shared_inv (name : string) (p : Z) (w w' : world) :
  make_shared name w = Some (p, w') ->
  exists rest, allocator w = p :: rest /\ p <> nullptr /\ objs w !! p = None.
Proof.
  unfold make_shared. intros H.
  destruct (new_Resource name w) as [[q w1] |] eqn:Hnew.
  - rewrite (bind_Some _ _ _ _ _ Hnew) in H. injection H as <- _.
    apply (new_Resource_inv _ _ _ _ Hnew).
  - rewrite (bind_None _ _ _ Hnew) in H. discriminate.
Qed.

(** A control block without a live object does not exist under the
    invariant. *)
Lemma no_owner_of_free_storage (p : Z) (w : world) :
  owners_have_object w -> objs w !! p = None -> ctrl w !! p = None.
Proof.
  intros Hw Hfree. destruct (ctrl w !! p) as [n |] eqn:E; [| reflexivity].
  destruct (Hw p n E) as [_ [r Hr]]. congruence.
Qed.

Lemma uniqueOwnershipScenario_inv (w w' : world) :
  uniqueOwnershipScenario w = Some (tt, w') ->
  exists p rest,
    allocator w = p :: rest /\ p <> nullptr /\ objs w !! p = None /\
    w' = {| objs := objs w; ctrl := ctrl w;
            cout := cout w ++ unique_output p; allocator := rest |}.
Proof.
  intros H.
  destruct (createUniqueResource w) as [[p w1] |] eqn:Hnew.
  - destruct (new_Resource_inv _ _ _ _ Hnew) as (rest & Ha & Hp & Hfree).
    rewrite (uniqueOwnershipScenario_spec p rest w Ha Hp Hfree) in H.
    injection H as <-. exists p, rest. repeat split; assumption.
  - unfold uniqueOwnershipScenario in H.
    rewrite (bind_None _ _ _ Hnew) in H. discriminate.
Qed.

Lemma sharedOwnershipScenario_inv (w w' : world) :
  sharedOwnershipScenario w = Some (tt, w') ->
  exists p rest,
    allocator w = p :: rest /\ p <> nullptr /\ objs w !! p = None /\
    w' = {| objs := objs w; ctrl := delete p (ctrl w);
            cout := cout w ++ shared_output p; allocator := rest |}.
Proof.
  intros H.
  destruct (make_shared "shared_resource" w) as [[p w1] |] eqn:Hnew.
  - destruct (make_shared_inv _ _ _ _ Hnew) as (rest & Ha & Hp & Hfree).
    rewrite (sharedOwnershipScenario_spec p rest w Ha Hp Hfree) in H.
    injection H as <-. exists p, rest. repeat split; assumption.
  - unfold sharedOwnershipScenario in H.
    rewrite (bind_None _ _ _ Hnew) in H. discriminate.
Qed.

Lemma observerScenario_inv (w w' : world) :
  observerScenario w = Some (tt, w') ->
  exists p rest,
    allocator w = p :: rest /\ p <> nullptr /\ objs w !! p = None /\
    w' = {| objs := objs w; ctrl := ctrl w;
            cout := cout w ++ observer_output p; allocator := rest |}.
Proof.
  intros H.
  destruct (make_unique "observer_resource" w) as [[p w1] |] eqn:Hnew.
  - destruct (new_Resource_inv _ _ _ _ Hnew) as (rest & Ha & Hp & Hfree).
    rewrite (observerScenario_spec p rest w Ha Hp Hfree) in H.
    injection H as <-. exists p, rest. repeat split; assumption.
  - unfold observerScenario in H.
    rewrite (bind_None _ _ _ Hnew) in H. discriminate.
Qed.

Ltac call_returns H Hcall :=
  match type of H with
  | bind ?m _ ?w0 = Some _ =>
      destruct (m w0) as [[[] ?] |] eqn:Hcall;
      [rewrite (bind_Some _ _ _ _ _ Hcall) in H
      | rewrite (bind_None _ _ _ Hcall) in H; discriminate H]
  end.

Lemma main_inv (w w' : world) (r : Z) :
  main w = Some (r, w') ->
  exists a1 a2 a3 rest,
    allocator w = a1 :: a2 :: a3 :: rest /\
    a1 <> nullptr /\ a2 <> nullptr /\ a3 <> nullptr /\
    objs w !! a1 = None /\ objs w !! a2 = None /\ objs w !! a3 = None /\
    r = 0 /\
    w' = {| objs := objs w; ctrl := delete a2 (ctrl w);
            cout := cout w ++ main_output a1 a2 a3; allocator := rest |}.
Proof.
  unfold main. intros H.
  rewrite (bind_Some _ _ _ _ _ (cout_ins_emit _ _)) in H.
  call_returns H H1.
  apply uniqueOwnershipScenario_inv in H1 as (a1 & r1 & Ha1 & Hn1 & Hf1 & ->).
  rewrite (bind_Some _ _ _ _ _ (cout_ins_emit _ _)) in H.
  call_returns H H2.
  apply sharedOwnershipScenario_inv in H2 as (a2 & r2 & Ha2 & Hn2 & Hf2 & ->).
  rewrite (bind_Some _ _ _ _ _ (cout_ins_emit _ _)) in H.
  call_returns H H3.
  apply observerScenario_inv in H3 as (a3 & r3 & Ha3 & Hn3 & Hf3 & ->).
  rewrite (bind_Some _ _ _ _ _ (cout_ins_emit _ _)) in H.
  unfold ret in H. injection H as <- <-.
  unfold emit in *. cbn [objs ctrl cout allocator] in *. subst r1 r2.
  exists a1, a2, a3, r3. repeat split; try assumption.
  unfold main_output, header. rewrite <- !app_assoc. reflexivity.
Qed.

(** X3: every run of [uniqueOwnershipScenario] that returns leaves the
    live objects and the owner counts exactly as it found them and has
    taken one address from the allocator; the caller before the transfer,
    [consumeUnique] after it and the resource in its three traces all
    print that one address: the transfer moves the ownership, not the
    object. *)
Theorem uniqueOwnershipScenario_frame (w w' : world) :
  uniqueOwnershipScenario w = Some (tt, w') ->
  objs w' = objs w /\ ctrl w' = ctrl w /\
  exists p,
    allocator w = p :: allocator w' /\ p <> nullptr /\ objs w !! p = None /\
    cout w' = cout w ++ unique_output p /\
    markers (unique_output p) = [p; p; p; p; p].
Proof.
  intros H.
  apply uniqueOwnershipScenario_inv in H as (p & rest & Ha & Hp & Hfree & ->).
  cbn [objs ctrl cout allocator]. split; [reflexivity |]. split; [reflexivity |].
  exists p. repeat split; assumption.
Qed.

Lemma uniqueOwnershipScenario_frame_witness :
  exists w',
    uniqueOwnershipScenario (init [7]) = Some (tt, w') /\
    objs w' = objs (init [7]) /\ ctrl w' = ctrl (init [7]) /\
    exists p,
      allocator (init [7]) = p :: allocator w' /\ p <> nullptr /\
      objs (init [7]) !! p = None /\
      cout w' = cout (init [7]) ++ unique_output p /\
      markers (unique_output p) = [p; p; p; p; p].
Proof.
  eexists. split; [vm_compute; reflexivity |].
  apply (uniqueOwnershipScenario_frame (init [7])). vm_compute. reflexivity.
Defined.

(** X4: every run of [sharedOwnershipScenario] that returns leaves the
    live objects as it found them; started where every control block
    counts at least one owner and manages a live object, it leaves the
    owner counts as they were and that invariant in force.  Owner A,
    Owner B and the resource in its four traces all print one address:
    both owners hold the same object. *)
Theorem sharedOwnershipScenario_frame (w w' : world) :
  sharedOwnershipScenario w = Some (tt, w') ->
  objs w' = objs w /\
  (owners_have_object w -> ctrl w' = ctrl w /\ owners_have_object w') /\
  exists p,
    allocator w = p :: allocator w' /\ p <> nullptr /\ objs w !! p = None /\
    cout w' = cout w ++ shared_output p /\
    markers (shared_output p) = [p; p; p; p; p; p].
Proof.
  intros H.
  apply sharedOwnershipScenario_inv in H as (p & rest & Ha & Hp & Hfree & ->).
  cbn [objs ctrl cout allocator]. split; [reflexivity |]. split.
  - intros Hw. rewrite delete_id by (apply no_owner_of_free_storage; assumption).
    split; [reflexivity | exact Hw].
  - exists p. repeat split; assumption.
Qed.

Lemma sharedOwnershipScenario_frame_witness :
  exists w',
    sharedOwnershipScenario (init [7]) = Some (tt, w') /\
    objs w' = objs (init [7]) /\
    (owners_have_object (init [7]) ->
     ctrl w' = ctrl (init [7]) /\ owners_have_object w') /\
    exists p,
      allocator (init [7]) = p :: allocator w' /\ p <> nullptr /\
      objs (init [7]) !! p = None /\
      cout w' = cout (init [7]) ++ shared_output p /\
      markers (shared_output p) = [p; p; p; p; p; p].
Proof.
  eexists. split; [vm_compute; reflexivity |].
  apply (sharedOwnershipScenario_frame (init [7])). vm_compute. reflexivity.
Defined.

(** X5: every run of [observerScenario] that returns leaves the live
    objects and the owner counts exactly as it found them and has written
    the five lines of the scenario after what was there, for the address
    of its resource, which is not null and held no live object before. *)
Theorem observerScenario_frame (w w' : world) :
  observerScenario w = Some (tt, w') ->
  objs w' = objs w /\ ctrl w' = ctrl w /\
  exists p,
    p <> nullptr /\ objs w !! p = None /\
    cout w' = cout w ++ observer_output p /\
    List.length (lines (observer_output p)) = 5%nat.
Proof.
  intros H.
  apply observerScenario_inv in H as (p & rest & Ha & Hp & Hfree & ->).
  cbn [objs ctrl cout allocator]. split; [reflexivity |]. split; [reflexivity |].
  exists p. repeat split; assumption.
Qed.

Lemma observerScenario_frame_witness :
  exists w',
    observerScenario (init [7]) = Some (tt, w') /\
    objs w' = objs (init [7]) /\ ctrl w' = ctrl (init [7]) /\
    exists p,
      p <> nullptr /\ objs (init [7]) !! p = None /\
      cout w' = cout (init [7]) ++ observer_output p /\
      List.length (lines (observer_output p)) = 5%nat.
Proof.
  eexists. split; [vm_compute; reflexivity |].
  apply (observerScenario_frame (init [7])). vm_compute. reflexivity.
Defined.

(** X6: every run of [main] that returns, from any world, returns 0, has
    written the output of a whole run after what was there, for three
    resource addresses none of which is null, and leaves every live object
    as it found it: all it acquired it has released.  Started under the
    invariant of shared ownership it leaves the owner counts as they were
    and the invariant in force. *)
Theorem main_frame (w w' : world) (r : Z) :
  main w = Some (r, w') ->
  r = 0 /\ objs w' = objs w /\
  (owners_have_object w -> ctrl w' = ctrl w /\ owners_have_object w') /\
  exists a1 a2 a3,
    a1 <> nullptr /\ a2 <> nullptr /\ a3 <> nullptr /\
    cout w' = cout w ++ main_output a1 a2 a3.
Proof.
  intros H.
  apply main_inv in H
    as (a1 & a2 & a3 & rest & Ha & H1 & H2 & H3 & F1 & F2 & F3 & -> & ->).
  cbn [objs ctrl cout allocator]. split; [reflexivity |]. split; [reflexivity |].
  split.
  - intros Hw. rewrite delete_id by (apply no_owner_of_free_storage; assumption).
    split; [reflexivity | exact Hw].
  - exists a1, a2, a3. repeat split; assumption.
Qed.

Lemma main_frame_witness :
  exists w',
    main (init [1; 2; 3]) = Some (0, w') /\
    0 = 0 /\ objs w' = objs (init [1; 2; 3]) /\
    (owners_have_object (init [1; 2; 3]) ->
     ctrl w' = ctrl (init [1; 2; 3]) /\ owners_have_object w') /\
    exists a1 a2 a3,
      a1 <> nullptr /\ a2 <> nullptr /\ a3 <> nullptr /\
      cout w' = cout (init [1; 2; 3]) ++ main_output a1 a2 a3.
Proof.
  eexists. split; [vm_compute; reflexivity |].
  apply (main_frame (init [1; 2; 3])). vm_compute. reflexivity.
Defined.

(** ** The lifetime demo: calls in sequence *)

Lemma observeResource_valid (res : Z) (w : world) :
  valid_argument res w = true ->
  observeResource res w =
  Some (tt, emit (observer_line res ++ observed_use res w) w).
Proof.
  unfold valid_argument, observed_use. intros Hvalid.
  destruct (Z.eqb_spec res nullptr) as [-> | Hres].
  - rewrite app_nil_r. apply observeResource_null.
  - cbn [orb] in Hvalid. apply bool_decide_eq_true in Hvalid as [r Hr].
    rewrite Hr. apply (observeResource_alive res r w Hres Hr).
Qed.

Lemma emit_emit (s t : list ochar) (w : world) :
  emit t (emit s w) = emit (s ++ t) w.
Proof. unfold emit. cbn [objs ctrl cout allocator]. rewrite app_assoc. reflexivity. Qed.

Lemma emit_nil (w : world) : emit [] w = w.
Proof. destruct w. unfold emit. cbn. rewrite app_nil_r. reflexivity. Qed.

Lemma for_from_observe (k : nat) (i : Z) (res : Z) (w : world) :
  valid_argument res w = true ->
  for_from i k (fun _ => observeResource res) w =
  Some (tt, emit (List.concat (repeat (observer_line res ++ observed_use res w) k)) w).
Proof.
  intros Hvalid. revert i.
  assert (Hgen : forall s i,
    for_from i k (fun _ => observeResource res) (emit s w) =
    Some (tt, emit (s ++ List.concat (repeat (observer_line res ++ observed_use res w) k)) w)).
  { induction k as [| k IH]; intros s i.
    - cbn [for_from repeat List.concat]. rewrite app_nil_r. reflexivity.
    - cbn [for_from repeat List.concat].
      rewrite (bind_Some _ _ _ _ _ (observeResource_valid res (emit s w) Hvalid)).
      rewrite emit_emit.
      change (observed_use res (emit s w)) with (observed_use res w).
      rewrite IH, <- !app_assoc. reflexivity. }
  intros i. rewrite <- (emit_nil w) at 1. apply Hgen.
Qed.

(** X7: [observeResource] can be called any number of times on a pointer
    that is null or points to a live [Resource]: [k] calls in a row all
    return, write [k] times what one call writes, and leave every object,
    owner count and the allocator as they were, so that the pointer is as
    valid after them as before. *)
Theorem observeResource_repeated (k : nat) (res : Z) (w : world) :
  valid_argument res w = true ->
  exists w',
    observe_times k res w = Some (tt, w') /\
    cout w' = cout w ++ List.concat (repeat (observer_line res ++ observed_use res w) k) /\
    objs w' = objs w /\ ctrl w' = ctrl w /\ allocator w' = allocator w /\
    valid_argument res w' = true.
Proof.
  intros Hvalid. eexists.
  split; [apply for_from_observe, Hvalid |].
  cbn [emit objs ctrl cout allocator]. repeat split. exact Hvalid.
Qed.

Lemma observeResource_repeated_witness :
  valid_argument 7 world_with_resource = true /\
  exists w',
    observe_times 3 7 world_with_resource = Some (tt, w') /\
    cout w' = cout world_with_resource
              ++ List.concat (repeat (observer_line 7
                                      ++ observed_use 7 world_with_resource) 3) /\
    objs w' = objs world_with_resource /\ ctrl w' = ctrl world_with_resource /\
    allocator w' = allocator world_with_resource /\
    valid_argument 7 w' = true.
Proof.
  split; [reflexivity |].
  apply (observeResource_repeated 3 7 world_with_resource). reflexivity.
Defined.

(** X8: the order of an observation and a transfer matters.  On a pointer
    to a live resource, [observeResource] followed by [consumeUnique]
    returns, with the lines of both and the resource released;
    [consumeUnique] followed by [observeResource] on the same pointer has
    no defined behaviour, the pointer dangles once the consuming call is
    over. *)
Theorem observe_before_consume (res : Z) (r : Resource) (w : world) :
  res <> nullptr -> objs w !! res = Some r ->
  (exists w',
     (observeResource res ;; consumeUnique res) w = Some (tt, w') /\
     cout w' = cout w ++ observer_line res ++ use_line (name_ r) res
                      ++ consume_line res ++ use_line (name_ r) res
                      ++ release_line (name_ r) res /\
     objs w' = delete res (objs w)) /\
  (consumeUnique res ;; observeResource res) w = None.
Proof.
  intros Hres Hr. split.
  - eexists. split.
    + rewrite (bind_Some _ _ _ _ _ (observeResource_alive res r w Hres Hr)).
      apply (consumeUnique_spec res r (emit _ w) Hres Hr).
    + cbn [emit objs ctrl cout allocator]. rewrite <- !app_assoc. split; reflexivity.
  - rewrite (bind_Some _ _ _ _ _ (consumeUnique_spec res r w Hres Hr)).
    apply observeResource_dangling; [assumption |].
    cbn [objs]. apply lookup_delete_eq.
Qed.

Lemma observe_before_consume_witness :
  7 <> nullptr /\
  objs world_with_resource !! 7 = Some (mkResource "observer_resource") /\
  (consumeUnique 7 ;; observeResource 7) world_with_resource = None.
Proof.
  assert (H7 : 7 <> nullptr) by (unfold nullptr; lia).
  split; [exact H7 |]. split; [reflexivity |].
  apply (observe_before_consume 7 (mkResource "observer_resource")
           world_with_resource H7 eq_refl).
Defined.

End lifetime_runs.

(** ** The lines of a resource *)

Section resource_lines.
Import ownership_and_lifetime.

Lemma newlines_app (s t : list ochar) : newlines (s ++ t) = (newlines s + newlines t)%nat.
Proof.
  induction s as [| [c | p | d] s IH]; cbn [app newlines]; try exact IH.
  - reflexivity.
  - destruct (Ascii.eqb c nl); rewrite IH; reflexivity.
Qed.

(** An output that ends in a newline has as many lines as newlines. *)
Lemma length_lines_from (s cur : list ochar) :
  List.length (lines_from cur (s ++ [Ch nl])) = S (newlines s).
Proof.
  revert cur. induction s as [| [c | p | d] s IH]; intros cur;
    cbn [app lines_from newlines]; try apply IH.
  - reflexivity.
  - destruct (Ascii.eqb c nl); cbn [List.length]; rewrite IH; reflexivity.
Qed.

Lemma no_newline_newlines (cs : list ascii) :
  no_newline cs = true <-> newlines (map Ch cs) = O.
Proof.
  induction cs as [| c cs IH]; cbn [no_newline forallb map newlines].
  - split; reflexivity.
  - destruct (Ascii.eqb c nl); cbn [negb andb].
    + split; discriminate.
    + exact IH.
Qed.

Lemma lines_resource_line (tag name : string) (p : Z) :
  one_line (tag ++ " Resource: ") = true ->
  List.length (lines (resource_text tag name p ++ [Ch nl])) = S (line_breaks name).
Proof.
  intros Htag. unfold lines. rewrite length_lines_from. f_equal.
  unfold resource_text. rewrite !newlines_app.
  apply no_newline_newlines in Htag. unfold text at 1. rewrite Htag.
  change (newlines (text " @ ")) with O. change (newlines [Ptr p]) with O.
  unfold line_breaks. lia.
Qed.

(** Each trace of a resource has one line more than the name has line
    breaks, and reads back as its event exactly when the name has none. *)
Lemma lines_of_traces (name : string) (p : Z) :
  List.length (lines (acquire_line name p)) = S (line_breaks name) /\
  List.length (lines (use_line name p)) = S (line_breaks name) /\
  List.length (lines (release_line name p)) = S (line_breaks name) /\
  (events (acquire_line name p) = [Acquire name p] <-> line_breaks name = O) /\
  (events (use_line name p) = [Use name p] <-> line_breaks name = O) /\
  (events (release_line name p) = [Release name p] <-> line_breaks name = O).
Proof.
  assert (Ha : List.length (lines (acquire_line name p)) = S (line_breaks name)).
  { change (acquire_line name p)
      with (inserts [str ("[Acquire]" ++ " Resource: "); str name; str " @ "; ptr p; chr nl]).
    rewrite inserts_resource_text. apply lines_resource_line. reflexivity. }
  assert (Hu : List.length (lines (use_line name p)) = S (line_breaks name)).
  { change (use_line name p)
      with (inserts [str ("[Use]" ++ " Resource: "); str name; str " @ "; ptr p; chr nl]).
    rewrite inserts_resource_text. apply lines_resource_line. reflexivity. }
  assert (Hr : List.length (lines (release_line name p)) = S (line_breaks name)).
  { change (release_line name p)
      with (inserts [str ("[Release]" ++ " Resource: "); str name; str " @ "; ptr p; chr nl]).
    rewrite inserts_resource_text. apply lines_resource_line. reflexivity. }
  assert (Hone : line_breaks name = O <-> one_line name = true).
  { symmetry. apply no_newline_newlines. }
  repeat split; try assumption.
  - intros E. apply (f_equal (@List.length _)) in E. unfold events in E.
    rewrite length_map, Ha in E. cbn in E. lia.
  - intros E. apply events_acquire_line, Hone, E.
  - intros E. apply (f_equal (@List.length _)) in E. unfold events in E.
    rewrite length_map, Hu in E. cbn in E. lia.
  - intros E. apply events_use_line, Hone, E.
  - intros E. apply (f_equal (@List.length _)) in E. unfold events in E.
    rewrite length_map, Hr in E. cbn in E. lia.
  - intros E. apply events_release_line, Hone, E.
Qed.

(** X9: for any name and address, what the constructor of a [Resource]
    writes is one line more than the name has line breaks, and so is what
    [use] and the destructor write on the live object; what each of them
    writes reads back as the one acquisition, use or release of that name
    at that address exactly when the name has no line break. *)
Theorem Resource_lines (this : Z) (name : string) (w : world) :
  (exists w1 out,
     Resource_ctor this name w = Some (tt, w1) /\
     cout w1 = cout w ++ out /\
     List.length (lines out) = S (line_breaks name) /\
     (events out = [Acquire name this] <-> line_breaks name = O)) /\
  (forall w1, objs w1 !! this = Some (mkResource name) ->
     (exists w2 out,
        Resource_use this w1 = Some (tt, w2) /\
        cout w2 = cout w1 ++ out /\
        List.length (lines out) = S (line_breaks name) /\
        (events out = [Use name this] <-> line_breaks name = O)) /\
     (exists w2 out,
        Resource_dtor this w1 = Some (tt, w2) /\
        cout w2 = cout w1 ++ out /\
        List.length (lines out) = S (line_breaks name) /\
        (events out = [Release name this] <-> line_breaks name = O))).
Proof.
  destruct (lines_of_traces name this) as (La & Lu & Lr & Ea & Eu & Er).
  split.
  - exists {| objs := <[this := mkResource name]> (objs w); ctrl := ctrl w;
              cout := cout w ++ acquire_line name this;
              allocator := allocator w |}, (acquire_line name this).
    split; [apply Resource_ctor_spec |]. cbn [cout].
    split; [reflexivity |]. split; assumption.
  - intros w1 Hlive. split.
    + exists (emit (use_line name this) w1), (use_line name this).
      split; [apply (Resource_use_spec this _ w1 Hlive) |]. cbn [emit cout].
      split; [reflexivity |]. split; assumption.
    + exists {| objs := delete this (objs w1); ctrl := ctrl w1;
                cout := cout w1 ++ release_line name this;
                allocator := allocator w1 |}, (release_line name this).
      split; [apply (Resource_dtor_spec this _ w1 Hlive) |]. cbn [cout].
      split; [reflexivity |]. split; assumption.
Qed.


End resource_lines.

(** ** Where the accumulator overflows *)

Section overflow.
Import const_vs_nonconst.

Lemma sum_below_nonneg (n : nat) : 0 <= sum_below n.
Proof. induction n as [| n IH]; cbn [sum_below]; lia. Qed.

Lemma double_sum_below (n : nat) : 2 * sum_below n = Z.of_nat n * (Z.of_nat n - 1).
Proof. induction n as [| n IH]; cbn [sum_below]; lia. Qed.

(** After [n] passes the loop is at [i = n] with the sum of the numbers
    below [n], wrapped. *)
Lemma passes_state (n : nat) :
  Z.of_nat n <= 1000000 ->
  Nat.iter n loop_step (0, 0) = (Z.of_nat n, int_wrap (sum_below n)).
Proof.
  induction n as [| n IH]; intros Hn.
  - reflexivity.
  - rewrite Nat.iter_succ, IH by lia. unfold loop_step. cbn [fst snd sum_below].
    rewrite int_add_wrap_l. f_equal.
    unfold int_add. rewrite int_wrap_small; unfold INT_MIN, INT_MAX; lia.
Qed.

(** X10: each loop returns [sum] once [i] has reached 1000000 and
    otherwise goes on from the state one pass further; what [compute] and
    [computeNonConst] return is the accumulator after 1000000 passes, and
    the loops pass through the state after [k] passes for every [k] up to
    1000000, where [i] is [k].  Through 65536 passes the accumulator holds
    the exact sum 0 + ... + (k - 1), which fits an [int]; the pass that
    adds 65536 is the first to overflow: the exact sum exceeds [INT_MAX]
    and the accumulator holds that sum less 2^32, the negative number
    -2147450880. *)
Theorem accumulator_first_overflow :
  (forall i sum, 1000000 <= i ->
     compute_loop i sum = sum /\ computeNonConst_loop i sum = sum) /\
  (forall i sum, i < 1000000 ->
     compute_loop i sum =
       compute_loop (fst (loop_step (i, sum))) (snd (loop_step (i, sum))) /\
     computeNonConst_loop i sum =
       computeNonConst_loop (fst (loop_step (i, sum))) (snd (loop_step (i, sum)))) /\
  compute mkData = snd (after_passes 1000000) /\
  computeNonConst mkData = snd (after_passes 1000000) /\
  (forall k, 0 <= k <= 1000000 ->
     fst (after_passes k) = k /\
     compute_loop (fst (after_passes k)) (snd (after_passes k)) = compute mkData /\
     computeNonConst_loop (fst (after_passes k)) (snd (after_passes k)) =
       computeNonConst mkData) /\
  (forall k, 0 <= k <= 65536 ->
     snd (after_passes k) = sum_below (Z.to_nat k) /\
     sum_below (Z.to_nat k) <= INT_MAX) /\
  INT_MAX < sum_below (Z.to_nat 65537) /\
  snd (after_passes 65537) = sum_below (Z.to_nat 65537) - 2 ^ 32 /\
  snd (after_passes 65537) = -2147450880.
Proof.
  assert (Hstate : forall k, 0 <= k <= 1000000 ->
            after_passes k = (k, int_wrap (sum_below (Z.to_nat k)))).
  { intros k Hk. unfold after_passes. rewrite passes_state by lia.
    rewrite Z2Nat.id by lia. reflexivity. }
  split; [| split; [| split; [| split; [| split; [| split; [| split; [| split]]]]]]].
  - intros i sum Hi.
    rewrite compute_loop_pass, computeNonConst_loop_pass. unfold loop_pass.
    destruct (Z.ltb_spec i 1000000); [lia | split; reflexivity].
  - intros i sum Hi.
    rewrite (compute_loop_pass i), (computeNonConst_loop_pass i). unfold loop_pass.
    destruct (Z.ltb_spec i 1000000); [split; reflexivity | lia].
  - rewrite (Hstate 1000000) by lia. cbn [snd].
    rewrite compute_value, sum_below_gauss, Z2Nat.id by lia. reflexivity.
  - rewrite (Hstate 1000000) by lia. cbn [snd].
    rewrite computeNonConst_value, sum_below_gauss, Z2Nat.id by lia. reflexivity.
  - intros k Hk. rewrite (Hstate k Hk). cbn [fst snd].
    split; [reflexivity |].
    rewrite (compute_loop_closed (Z.to_nat (1000000 - k))) by lia.
    rewrite (computeNonConst_loop_closed (Z.to_nat (1000000 - k))) by lia.
    rewrite compute_value, computeNonConst_value, sum_below_gauss, Z2Nat.id by lia.
    split; f_equal; lia.
  - intros k Hk. rewrite (Hstate k) by lia. cbn [snd].
    pose proof (sum_below_nonneg (Z.to_nat k)).
    pose proof (double_sum_below (Z.to_nat k)) as Hd. rewrite Z2Nat.id in Hd by lia.
    assert (sum_below (Z.to_nat k) <= INT_MAX) by (unfold INT_MAX; nia).
    split; [| assumption]. apply int_wrap_small. unfold INT_MIN. lia.
  - rewrite sum_below_gauss, Z2Nat.id by lia. reflexivity.
  - rewrite (Hstate 65537) by lia. cbn [snd].
    rewrite sum_below_gauss, Z2Nat.id by lia. reflexivity.
  - rewrite (Hstate 65537) by lia. cbn [snd].
    rewrite sum_below_gauss, Z2Nat.id by lia. reflexivity.
Qed.

End overflow.

(** ** What the benchmark prints *)

Section benchmark_runs.
Import const_vs_nonconst.

Lemma int64_wrap_small (x : Z) : INT64_MIN <= x <= INT64_MAX -> int64_wrap x = x.
Proof.
  unfold int64_wrap, INT64_MIN, INT64_MAX. intros Hx.
  rewrite Z.mod_small; lia.
Qed.

Lemma int64_wrap_range (x : Z) : INT64_MIN <= int64_wrap x <= INT64_MAX.
Proof.
  unfold int64_wrap, INT64_MIN, INT64_MAX.
  pose proof (Z.mod_pos_bound (x + 2 ^ 63) (2 ^ 64)). lia.
Qed.

Lemma benchmark_main_inv (w w' : world) (r : Z) :
  main w = Some (r, w') ->
  exists t1 t2 t3 t4 rest,
    clock w = t1 :: t2 :: t3 :: t4 :: rest /\ r = 0 /\
    w' = {| clock := rest;
            cout := cout w ++ benchmark_output (int64_sub t2 t1) (int64_sub t4 t3) |}.
Proof.
  destruct w as [c out]. intros H.
  assert (Hloop : forall v (w0 : world),
            for_from 0 100 (fun _ => discard v) w0 = Some (tt, w0))
    by (intros v w0; apply for_from_pure; intros j w1; apply discard_spec).
  destruct c as [| t1 [| t2 [| t3 [| t4 rest]]]].
  - discriminate H.
  - unfold main in H. rewrite (bind_Some _ _ _ _ _ (now_spec _ _ _)) in H.
    rewrite (bind_Some _ _ _ _ _ (Hloop _ _)) in H. discriminate H.
  - unfold main in H. rewrite (bind_Some _ _ _ _ _ (now_spec _ _ _)) in H.
    rewrite (bind_Some _ _ _ _ _ (Hloop _ _)) in H.
    rewrite (bind_Some _ _ _ _ _ (now_spec _ _ _)) in H. discriminate H.
  - unfold main in H. rewrite (bind_Some _ _ _ _ _ (now_spec _ _ _)) in H.
    rewrite (bind_Some _ _ _ _ _ (Hloop _ _)) in H.
    rewrite (bind_Some _ _ _ _ _ (now_spec _ _ _)) in H.
    rewrite (bind_Some _ _ _ _ _ (now_spec _ _ _)) in H.
    rewrite (bind_Some _ _ _ _ _ (Hloop _ _)) in H. discriminate H.
  - rewrite benchmark_main_spec in H. injection H as <- <-.
    exists t1, t2, t3, t4, rest. repeat split.
Qed.

(** X11: every run of the benchmark that returns, returns 0, has read the
    clock exactly four times and has written two lines after what was
    there: the const line with the 64-bit difference of the second
    reading and the first, then the non-const line with the 64-bit
    difference of the fourth and the third.  The difference is a 64-bit
    tick count, and it is the second reading less the first wherever that
    fits 64 bits.  What the two operations return has no part in the
    output. *)
Theorem benchmark_prints_two_differences (w w' : world) (r : Z) :
  main w = Some (r, w') ->
  r = 0 /\
  exists t1 t2 t3 t4,
    clock w = t1 :: t2 :: t3 :: t4 :: clock w' /\
    cout w' = cout w ++ benchmark_output (int64_sub t2 t1) (int64_sub t4 t3) /\
    durations (benchmark_output (int64_sub t2 t1) (int64_sub t4 t3)) =
      [int64_sub t2 t1; int64_sub t4 t3] /\
    lines (benchmark_output (int64_sub t2 t1) (int64_sub t4 t3)) =
      [ text "Const method duration: " ++ [Dbl (int64_sub t2 t1)] ++ text " ms";
        text "Non-const method duration: " ++ [Dbl (int64_sub t4 t3)]
          ++ text " ms" ] /\
    INT64_MIN <= int64_sub t2 t1 <= INT64_MAX /\
    INT64_MIN <= int64_sub t4 t3 <= INT64_MAX /\
    (INT64_MIN <= t2 - t1 <= INT64_MAX -> int64_sub t2 t1 = t2 - t1) /\
    (INT64_MIN <= t4 - t3 <= INT64_MAX -> int64_sub t4 t3 = t4 - t3).
Proof.
  intros H. apply benchmark_main_inv in H as (t1 & t2 & t3 & t4 & rest & Hc & -> & ->).
  split; [reflexivity |]. exists t1, t2, t3, t4. cbn [clock cout].
  split; [exact Hc |]. split; [reflexivity |]. split; [reflexivity |].
  split; [reflexivity |].
  split; [apply int64_wrap_range |]. split; [apply int64_wrap_range |].
  split; apply int64_wrap_small.
Qed.

Lemma benchmark_prints_two_differences_witness :
  exists w',
    main (mkWorld [10; 25; 30; 41] []) = Some (0, w') /\
    0 = 0 /\
    exists t1 t2 t3 t4,
      clock (mkWorld [10; 25; 30; 41] []) = t1 :: t2 :: t3 :: t4 :: clock w' /\
      cout w' = cout (mkWorld [10; 25; 30; 41] [])
                ++ benchmark_output (int64_sub t2 t1) (int64_sub t4 t3) /\
      durations (benchmark_output (int64_sub t2 t1) (int64_sub t4 t3)) =
        [int64_sub t2 t1; int64_sub t4 t3] /\
      lines (benchmark_output (int64_sub t2 t1) (int64_sub t4 t3)) =
        [ text "Const method duration: " ++ [Dbl (int64_sub t2 t1)] ++ text " ms";
          text "Non-const method duration: " ++ [Dbl (int64_sub t4 t3)]
            ++ text " ms" ] /\
      INT64_MIN <= int64_sub t2 t1 <= INT64_MAX /\
      INT64_MIN <= int64_sub t4 t3 <= INT64_MAX /\
      (INT64_MIN <= t2 - t1 <= INT64_MAX -> int64_sub t2 t1 = t2 - t1) /\
      (INT64_MIN <= t4 - t3 <= INT64_MAX -> int64_sub t4 t3 = t4 - t3).
Proof.
  eexists. split; [apply benchmark_main_spec |].
  apply (benchmark_prints_two_differences (mkWorld [10; 25; 30; 41] [])).
  apply benchmark_main_spec.
Defined.

End benchmark_runs.
